(** * The number-guessing game of [main.py]: model and verified properties

    A shallow embedding of the game engine, the statistics ledger and the
    thin endpoints of [main.py].

    - A Python [str] is a list of Unicode code points ([N]).
    - A Python [int] is a [Z].
    - The [games] registry is a finite map from game id to game record; the
      [stats] ledger is an insertion-ordered dictionary (an association
      list without duplicate keys), because [save_stats] writes its items
      in iteration order.
    - The file [scores.txt] is an optional text ([None]: no such file).
      Writing and reading are taken at the level of text: the codec of
      the file is assumed to write and read back every code point, and
      input/output errors other than a missing file are left out.
    - Exceptions are values of [exn]; a function that mutates globals is a
      state transformer that returns an [outcome] and the new state.
    - [random.randint] and [uuid.uuid4] are oracles: the values they draw
      are extra arguments of [create_game]. *)

From Stdlib Require Import ZArith NArith List Ascii String Lia Bool.
From stdpp Require Import base option list numbers gmap fin_maps.
Import ListNotations.

Local Open Scope Z_scope.

(* ===================================================================== *)
(** ** Python strings *)
(* ===================================================================== *)

Abbreviation str := (list N).

(** An ASCII literal as a [str]. *)
Definition of_string (s : string) : str :=
  List.map N_of_ascii (list_ascii_of_string s).

Definition LF : N := 10%N.         (* "\n" *)
Definition CR : N := 13%N.         (* "\r" *)
Definition SEMICOLON : N := 59%N.  (* ";"  *)
Definition PLUS : N := 43%N.       (* "+"  *)
Definition MINUS : N := 45%N.      (* "-"  *)
Definition UNDERSCORE : N := 95%N. (* "_"  *)
Definition ZERO : N := 48%N.       (* "0"  *)

(** [str.isspace] on one code point: the characters [str.strip()] removes. *)
Definition isspace (c : N) : bool :=
  ((9 <=? c) && (c <=? 13) || (28 <=? c) && (c <=? 32)
   || (c =? 133) || (c =? 160) || (c =? 5760)
   || (8192 <=? c) && (c <=? 8202)
   || (c =? 8232) || (c =? 8233) || (c =? 8239) || (c =? 8287)
   || (c =? 12288))%N.

Fixpoint lstrip (s : str) : str :=
  match s with
  | c :: s' => if isspace c then lstrip s' else s
  | [] => []
  end.

Definition rstrip (s : str) : str := rev (lstrip (rev s)).

(** [s.strip()] *)
Definition strip (s : str) : str := rstrip (lstrip s).

(** [s.split(sep)] for a one-character separator: always at least one
    field. *)
Fixpoint split (sep : N) (s : str) : list str :=
  match s with
  | [] => [[]]
  | c :: s' =>
      if (c =? sep)%N then [] :: split sep s'
      else match split sep s' with
           | field :: fields => (c :: field) :: fields
           | [] => [[c]]
           end
  end.

(** Reading a text file opened with the default [newline=None]: every
    "\r\n" and every lone "\r" arrives as "\n". *)
Fixpoint universal_newlines (s : str) : str :=
  match s with
  | [] => []
  | c :: s' =>
      if (c =? CR)%N then
        match s' with
        | c' :: s'' => if (c' =? LF)%N then LF :: universal_newlines s''
                       else LF :: universal_newlines s'
        | [] => [LF]
        end
      else c :: universal_newlines s'
  end.

(** [for line in f]: the lines of a text, each with its terminating "\n"
    (the last one has none when the text does not end in "\n"). *)
Fixpoint readlines (s : str) : list str :=
  match s with
  | [] => []
  | c :: s' =>
      if (c =? LF)%N then [c] :: readlines s'
      else match readlines s' with
           | line :: lines => (c :: line) :: lines
           | [] => [[c]]
           end
  end.

(** Decimal digits of a natural number, least significant first.  [fuel]
    bounds the number of further digits. *)
Fixpoint digits_le (fuel : nat) (n : N) : str :=
  let d := (ZERO + n mod 10)%N in
  match fuel with
  | O => [d]
  | S fuel' => if (n <? 10)%N then [d] else d :: digits_le fuel' (n / 10)%N
  end.

Definition digits (n : N) : str :=
  rev (digits_le (N.to_nat (N.log2 n)) n).

(** ["%d" % z] (and [str(z)], which an f-string uses). *)
Definition format_d (z : Z) : str :=
  if z <? 0 then MINUS :: digits (Z.to_N (- z)) else digits (Z.to_N z).

Definition isdigit (c : N) : bool := ((ZERO <=? c) && (c <=? 57))%N.

(** The digits of a decimal literal: ASCII digits, with single underscores
    allowed between two digits.  [prev] tells whether the previous
    character was a digit; [acc] is the value read so far. *)
Fixpoint int_digits (s : str) (prev : bool) (acc : N) : option N :=
  match s with
  | [] => if prev then Some acc else None
  | c :: s' =>
      if isdigit c then int_digits s' true (10 * acc + (c - ZERO))%N
      else if (c =? UNDERSCORE)%N && prev then
        match s' with
        | c' :: _ => if isdigit c' then int_digits s' false acc else None
        | [] => None
        end
      else None
  end.

(** [Py_ISSPACE]: the ASCII whitespace that the parser of [int] skips. *)
Definition ascii_space (c : N) : bool :=
  ((9 <=? c) && (c <=? 13) || (c =? 32))%N.

(** The digit zero of every script with decimal digits (Unicode 14.0.0,
    the database of Python 3.11); the digits one to nine of a script
    follow its zero. *)
Definition decimal_zeros : list N :=
  [
   48; 1632; 1776; 1984; 2406; 2534; 2662; 2790;
   2918; 3046; 3174; 3302; 3430; 3558; 3664; 3792;
   3872; 4160; 4240; 6112; 6160; 6470; 6608; 6784;
   6800; 6992; 7088; 7232; 7248; 42528; 43216; 43264;
   43472; 43504; 43600; 44016; 65296; 66720; 68912; 69734;
   69872; 69942; 70096; 70384; 70736; 70864; 71248; 71360;
   71472; 71904; 72016; 72784; 73040; 73120; 92768; 92864;
   93008; 120782; 120792; 120802; 120812; 120822; 123200; 123632;
   125264; 130032
  ]%N.

(** [Py_UNICODE_TODECIMAL]: the value of a decimal digit of any script. *)
Definition to_decimal (c : N) : option N :=
  match List.find (fun z => (z <=? c) && (c <=? z + 9))%N decimal_zeros with
  | Some z => Some (c - z)%N
  | None => None
  end.

(** What [int] makes of a character before it parses: an ASCII character
    stays, any other whitespace becomes " ", a decimal digit of another
    script becomes its ASCII digit, and anything else becomes "?". *)
Definition to_ascii (c : N) : N :=
  if (c <? 127)%N then c
  else if isspace c then 32%N
  else match to_decimal c with
       | Some d => (ZERO + d)%N
       | None => 63%N
       end.

Fixpoint skip_spaces (s : str) : str :=
  match s with
  | c :: s' => if ascii_space c then skip_spaces s' else s
  | [] => []
  end.

(** [int(s)] in base 10: the characters are first brought to ASCII, then
    come whitespace, an optional sign, the digits, and whitespace to the
    end.  [None] stands for [ValueError].  The limit that the interpreter
    puts on the number of digits (4300 unless configured otherwise) is left
    out. *)
Definition int (s : str) : option Z :=
  match rev (skip_spaces (rev (skip_spaces (List.map to_ascii s)))) with
  | c :: s' =>
      if (c =? MINUS)%N then (fun n => - Z.of_N n) <$> int_digits s' false 0%N
      else if (c =? PLUS)%N then Z.of_N <$> int_digits s' false 0%N
      else Z.of_N <$> int_digits (c :: s') false 0%N
  | [] => None
  end.

(* ===================================================================== *)
(** ** Python dictionaries with [str] keys, in insertion order *)
(* ===================================================================== *)

Definition dict (V : Type) : Type := list (str * V).

(** [d.get(k)]; [d[k]] is this with [None] read as [KeyError]. *)
Fixpoint dict_get {V} (d : dict V) (k : str) : option V :=
  match d with
  | [] => None
  | (k', v) :: d' => if bool_decide (k' = k) then Some v else dict_get d' k
  end.

(** [k in d] *)
Definition dict_mem {V} (d : dict V) (k : str) : bool :=
  match dict_get d k with Some _ => true | None => false end.

(** [d[k] = v]: a present key keeps its place, a new key goes last. *)
Fixpoint dict_set {V} (d : dict V) (k : str) (v : V) : dict V :=
  match d with
  | [] => [(k, v)]
  | (k', v') :: d' =>
      if bool_decide (k' = k) then (k', v) :: d'
      else (k', v') :: dict_set d' k v
  end.

Definition dict_keys {V} (d : dict V) : list str := List.map fst d.

(* ===================================================================== *)
(** ** Exceptions and stateful computations *)
(* ===================================================================== *)

(** The exceptions the program raises or meets.  A [ValueError] that a
    built-in raises ([int], tuple unpacking) carries an empty message
    here. *)
Inductive exn : Type :=
  | HTTPException (status_code : Z) (detail : str)
  | ValueError (msg : str)
  | KeyError (key : str).

Inductive outcome (A : Type) : Type :=
  | Return (a : A)
  | Raise (e : exn).
Arguments Return {A} a.
Arguments Raise {A} e.

(** A computation over a mutable state [S]: it returns or raises, and
    either way leaves a state behind. *)
Definition M (S A : Type) : Type := S -> outcome A * S.

Definition ret {S A} (a : A) : M S A := fun s => (Return a, s).

Definition raise {S A} (e : exn) : M S A := fun s => (Raise e, s).

Definition bind {S A B} (m : M S A) (k : A -> M S B) : M S B :=
  fun s =>
    match m s with
    | (Return a, s') => k a s'
    | (Raise e, s') => (Raise e, s')
    end.

Definition get {S} : M S S := fun s => (Return s, s).

Definition modify {S} (f : S -> S) : M S unit := fun s => (Return tt, f s).

(** [try: m  except ValueError: h]; the handler gets the message of the
    exception it caught, so that a bare [raise] can raise it again. *)
Definition except_ValueError {S A} (m : M S A) (h : str -> M S A) : M S A :=
  fun s =>
    match m s with
    | (Raise (ValueError msg), s') => h msg s'
    | r => r
    end.

Declare Scope py_scope.
Delimit Scope py_scope with py.
Notation "'let*' x ':=' m 'in' k" := (bind m (fun x => k))
  (at level 10, x name, m at level 100, k at level 200) : py_scope.
Notation "m ';;' k" := (bind m (fun _ => k))
  (at level 100, k at level 200, right associativity) : py_scope.

(** A function without side effects that returns or raises. *)
Definition lift {S A} (r : outcome A) : M S A := fun s => (r, s).

(* ===================================================================== *)
(** ** In-memory state *)
(* ===================================================================== *)

(** A game dict. *)
Record Game : Type := mkGame {
  secret_number : Z;
  number_range : Z;
  max_attempts : Z;
  attempts_used : Z;
  is_over : bool;
  player_name : str;
}.

(** A stats record [{"wins": int, "losses": int}]. *)
Record PlayerRecord : Type := mkPlayerRecord {
  wins : Z;
  losses : Z;
}.

(** The globals [games] and [stats], and the file [scores.txt]. *)
Record World : Type := mkWorld {
  games : gmap str Game;
  stats : dict PlayerRecord;
  scores_txt : option str;
}.

Definition set_attempts_used (n : Z) (g : Game) : Game :=
  mkGame (secret_number g) (number_range g) (max_attempts g) n
         (is_over g) (player_name g).

Definition set_is_over (b : bool) (g : Game) : Game :=
  mkGame (secret_number g) (number_range g) (max_attempts g)
         (attempts_used g) b (player_name g).

Definition set_games (gs : gmap str Game) (w : World) : World :=
  mkWorld gs (stats w) (scores_txt w).

Definition set_stats (st : dict PlayerRecord) (w : World) : World :=
  mkWorld (games w) st (scores_txt w).

Definition set_scores_txt (f : option str) (w : World) : World :=
  mkWorld (games w) (stats w) f.

(* ===================================================================== *)
(** ** Request and response models *)
(* ===================================================================== *)

(** The strings used as a result, by [check_guess], [record_result] and
    [GuessResponse.result]. *)
Inductive Result : Type :=
  | too_high | too_low | correct | win | lose | game_over.

Record GuessResponse : Type := mkGuessResponse {
  result : Result;
  attempts_left : Z;
  correct_number : option Z;
}.

(** The fields [game_id], [number_range] and [max_attempts]. *)
Record StartGameResponse : Type := mkStartGameResponse {
  start_game_id : str;
  start_number_range : Z;
  start_max_attempts : Z;
}.

(** The dict [get_player_stats_data] returns, with the keys
    [player_name], [wins] and [losses]. *)
Record StatsResponse : Type := mkStatsResponse {
  stats_player_name : str;
  stats_wins : Z;
  stats_losses : Z;
}.

(* ===================================================================== *)
(** ** Stats helpers (load/save/update) *)
(* ===================================================================== *)

(** The body of the loop of [load_stats] over the remaining lines. *)
Fixpoint load_lines (lines : list str) (data : dict PlayerRecord)
  : outcome (dict PlayerRecord) :=
  match lines with
  | [] => Return data
  | line :: rest =>
      match strip line with
      | [] => load_lines rest data
      | line' =>
          match split SEMICOLON line' with
          | [name; wins_str; losses_str] =>
              match int wins_str with
              | None => Raise (ValueError [])
              | Some w =>
                  match int losses_str with
                  | None => Raise (ValueError [])
                  | Some l =>
                      load_lines rest (dict_set data name (mkPlayerRecord w l))
                  end
              end
          | _ => Raise (ValueError [])
          end
      end
  end.

Definition load_stats : M World (dict PlayerRecord) :=
  fun w =>
    match scores_txt w with
    | None => (Return [], w) (* FileNotFoundError: first run *)
    | Some text => (load_lines (readlines (universal_newlines text)) [], w)
    end.

(** One [f.write("%s;%d;%d\n" % ...)]. *)
Definition format_record (item : str * PlayerRecord) : str :=
  item.1 ++ [SEMICOLON] ++ format_d (wins item.2) ++ [SEMICOLON]
         ++ format_d (losses item.2) ++ [LF].

Definition save_text (st : dict PlayerRecord) : str :=
  concat (List.map format_record st).

Definition save_stats : M World unit :=
  modify (fun w => set_scores_txt (Some (save_text (stats w))) w).

Definition ensure_player_stats (player_name : str) : M World unit :=
  fun w =>
    if negb (dict_mem (stats w) player_name)
    then (Return tt,
          set_stats (dict_set (stats w) player_name (mkPlayerRecord 0 0)) w)
    else (Return tt, w).

(** [stats[player_name][field] += 1], as a change [f] of the record. *)
Definition update_record (player_name : str)
    (f : PlayerRecord -> PlayerRecord) : M World unit :=
  fun w =>
    match dict_get (stats w) player_name with
    | None => (Raise (KeyError player_name), w)
    | Some r => (Return tt, set_stats (dict_set (stats w) player_name (f r)) w)
    end.

Definition record_result (player_name : str) (result : Result) : M World unit :=
  (ensure_player_stats player_name ;;
   match result with
   | win =>
       update_record player_name
         (fun r => mkPlayerRecord (wins r + 1) (losses r))
   | lose =>
       update_record player_name
         (fun r => mkPlayerRecord (wins r) (losses r + 1))
   | _ => ret tt
   end ;;
   save_stats)%py.

(** [stats = load_stats()] at startup, with empty [games]. *)
Definition startup (file : option str) : outcome World :=
  match (load_stats (mkWorld ∅ [] file)).1 with
  | Return st => Return (mkWorld ∅ st file)
  | Raise e => Raise e
  end.

(* ===================================================================== *)
(** ** Core game logic helpers *)
(* ===================================================================== *)

Definition check_guess (secret_number guess : Z) : Result :=
  if guess >? secret_number then too_high
  else if guess <? secret_number then too_low
  else correct.

Definition choose_difficulty_from_number (difficulty : Z) : outcome (Z * Z) :=
  if difficulty =? 1 then Return (10, 5)
  else if difficulty =? 2 then Return (20, 4)
  else if difficulty =? 3 then Return (50, 3)
  else Raise (ValueError (of_string "Invalid difficulty")).

(* ===================================================================== *)
(** ** Game service functions *)
(* ===================================================================== *)

(** [drawn_secret] is the value [random.randint(1, number_range)] returns
    and [drawn_id] the value of [uuid.uuid4().hex]. *)
Definition create_game (drawn_secret : Z) (drawn_id : str)
    (difficulty : Z) (player_name : str) : M World StartGameResponse :=
  (let* p := except_ValueError
               (lift (choose_difficulty_from_number difficulty))
               (* let the endpoint decide the HTTP error *)
               (fun msg => raise (ValueError msg)) in
   let number_range := p.1 in
   let max_attempts := p.2 in
   let secret_number := drawn_secret in
   let game_id := drawn_id in
   ensure_player_stats player_name ;;
   modify (fun w =>
     set_games (<[game_id :=
                   mkGame secret_number number_range max_attempts 0 false
                          player_name]> (games w)) w) ;;
   ret (mkStartGameResponse game_id number_range max_attempts))%py.

Definition get_game_or_404 (game_id : str) : M World Game :=
  fun w =>
    match games w !! game_id with
    | None => (Raise (HTTPException 404 (of_string "Game not found")), w)
    | Some game => (Return game, w)
    end.

(** The state of [apply_guess_to_game]: the game dict it was handed and
    the globals. *)
Definition the_game : M (Game * World) Game := fun s => (Return s.1, s).

Definition on_game (f : Game -> Game) : M (Game * World) unit :=
  fun s => (Return tt, (f s.1, s.2)).

Definition in_world {A} (m : M World A) : M (Game * World) A :=
  fun s => let r := m s.2 in (r.1, (s.1, r.2)).

Definition apply_guess_to_game (guess : Z) : M (Game * World) GuessResponse :=
  (let* game := the_game in
   (* game already over? *)
   if is_over game then
     ret (mkGuessResponse game_over
            (max_attempts game - attempts_used game)
            (Some (secret_number game)))
   (* validate guess range *)
   else if (guess <? 1) || (guess >? number_range game) then
     raise (HTTPException 400
              (of_string "Guess must be between 1 and "
               ++ format_d (number_range game)))
   else
     (* count this attempt *)
     on_game (fun g => set_attempts_used (attempts_used g + 1) g) ;;
     let* game := the_game in
     let basic_result := check_guess (secret_number game) guess in
     let attempts_left := max_attempts game - attempts_used game in
     match basic_result with
     | correct =>
         (* handle win *)
         on_game (set_is_over true) ;;
         in_world (record_result (player_name game) win) ;;
         ret (mkGuessResponse win attempts_left (Some (secret_number game)))
     | _ =>
         (* handle lose (no attempts left and not correct) *)
         if attempts_left <=? 0 then
           on_game (set_is_over true) ;;
           in_world (record_result (player_name game) lose) ;;
           ret (mkGuessResponse lose 0 (Some (secret_number game)))
         else
           (* still going: just too high / too low *)
           ret (mkGuessResponse basic_result attempts_left None)
     end)%py.

Definition get_player_stats_data (player_name : str) : M World StatsResponse :=
  fun w =>
    if negb (dict_mem (stats w) player_name)
    then (Raise (HTTPException 404 (of_string "Player not found")), w)
    else
      match dict_get (stats w) player_name with
      | None => (Raise (KeyError player_name), w)
      | Some r => (Return (mkStatsResponse player_name (wins r) (losses r)), w)
      end.

(* ===================================================================== *)
(** ** Endpoints *)
(* ===================================================================== *)

Definition read_root : str := of_string "Hello, this is my first API!".

Definition greet (name : str) : str :=
  of_string "Hello, " ++ name ++ of_string "!".

Definition start_game (drawn_secret : Z) (drawn_id : str)
    (difficulty : Z) (player_name : str) : M World StartGameResponse :=
  except_ValueError
    (create_game drawn_secret drawn_id difficulty player_name)
    (fun _ =>
       raise (HTTPException 400
                (of_string "Invalid difficulty. Use 1, 2, or 3."))).

(** [game] is the very dict stored in [games] under [game_id]: what
    [apply_guess_to_game] does to it is seen in the registry, also when
    the call raises. *)
Definition check_guess_endpoint (game_id : str) (guess : Z)
  : M World GuessResponse :=
  (let* game := get_game_or_404 game_id in
   fun w =>
     let r := apply_guess_to_game guess (game, w) in
     (r.1, set_games (<[game_id := r.2.1]> (games r.2.2)) r.2.2))%py.

Definition get_player_stats (player_name : str) : M World StatsResponse :=
  get_player_stats_data player_name.

(** One request to the service; a start-game request carries the values
    the random sources will draw for it. *)
Inductive request : Type :=
  | GetRoot
  | PostGreet (name : str)
  | PostStartGame (drawn_secret : Z) (drawn_id : str)
                  (difficulty : Z) (player_name : str)
  | PostCheckGuess (game_id : str) (guess : Z)
  | GetStats (player_name : str).

Inductive response : Type :=
  | Message (message : str)
  | Started (r : StartGameResponse)
  | Guessed (r : GuessResponse)
  | Stats (r : StatsResponse).

Definition handle (req : request) : M World response :=
  match req with
  | GetRoot => ret (Message read_root)
  | PostGreet name => ret (Message (greet name))
  | PostStartGame s i d p =>
      (let* r := start_game s i d p in ret (Started r))%py
  | PostCheckGuess i g =>
      (let* r := check_guess_endpoint i g in ret (Guessed r))%py
  | GetStats p =>
      (let* r := get_player_stats p in ret (Stats r))%py
  end.

(** The requests of a session, in order; a request that fails does not
    stop the service. *)
Fixpoint serve (reqs : list request) (w : World)
  : list (outcome response) * World :=
  match reqs with
  | [] => ([], w)
  | req :: reqs' =>
      let r := handle req w in
      let rs := serve reqs' r.2 in
      (r.1 :: rs.1, rs.2)
  end.

(** Successive guesses on one game dict. *)
Fixpoint play (guesses : list Z) (s : Game * World)
  : list (outcome GuessResponse) * (Game * World) :=
  match guesses with
  | [] => ([], s)
  | guess :: guesses' =>
      let r := apply_guess_to_game guess s in
      let rs := play guesses' r.2 in
      (r.1 :: rs.1, rs.2)
  end.

(* ===================================================================== *)
(** ** What a recorded result leaves behind *)
(* ===================================================================== *)

Definition zero_record : PlayerRecord := mkPlayerRecord 0 0.

Definition add_win (r : PlayerRecord) : PlayerRecord :=
  mkPlayerRecord (wins r + 1) (losses r).

Definition add_loss (r : PlayerRecord) : PlayerRecord :=
  mkPlayerRecord (wins r) (losses r + 1).

(** The world after [record_result] changed the record of [p] by [f]
    (a missing record counts as zeroed) and saved the ledger. *)
Definition recorded (f : PlayerRecord -> PlayerRecord) (p : str) (w : World)
  : World :=
  let st := dict_set (stats w) p (f (default zero_record (dict_get (stats w) p))) in
  mkWorld (games w) st (Some (save_text st)).

(** [w'] keeps every record of [w], with counters at least as large. *)
Definition stats_grow (w w' : World) : Prop :=
  forall name r, dict_get (stats w) name = Some r ->
    exists r', dict_get (stats w') name = Some r'
               /\ wins r <= wins r' /\ losses r <= losses r'.

(** A game as [create_game] stores it: no attempt used, not over, and a
    budget of at least one attempt ([create_game] gives 5, 4 or 3). *)
Definition fresh (g : Game) : Prop :=
  attempts_used g = 0 /\ is_over g = false /\ 1 <= max_attempts g.

Definition in_range (g : Game) (guess : Z) : Prop :=
  1 <= guess <= number_range g.

(** The game after [attempts_used += 1]. *)
Definition counted (g : Game) : Game :=
  set_attempts_used (attempts_used g + 1) g.

(** The response to a guess on a finished game, and the error for a
    guess out of range. *)
Definition over_response (g : Game) : GuessResponse :=
  mkGuessResponse game_over (max_attempts g - attempts_used g)
                  (Some (secret_number g)).

Definition invalid_guess (g : Game) : exn :=
  HTTPException 400
    (of_string "Guess must be between 1 and " ++ format_d (number_range g)).

(** The five ways through [apply_guess_to_game]: the outcome, the game
    and the world each of them leaves. *)
Inductive way (x : Z) (g : Game) (w : World)
  : outcome GuessResponse -> Game -> World -> Prop :=
  | way_over :
      is_over g = true ->
      way x g w
        (Return (mkGuessResponse game_over
                   (max_attempts g - attempts_used g)
                   (Some (secret_number g)))) g w
  | way_invalid :
      is_over g = false -> ~ in_range g x ->
      way x g w
        (Raise (HTTPException 400
                  (of_string "Guess must be between 1 and "
                   ++ format_d (number_range g)))) g w
  | way_win :
      is_over g = false -> in_range g x -> x = secret_number g ->
      way x g w
        (Return (mkGuessResponse win
                   (max_attempts g - (attempts_used g + 1))
                   (Some (secret_number g))))
        (set_is_over true (counted g))
        (recorded add_win (player_name g) w)
  | way_lose :
      is_over g = false -> in_range g x -> x <> secret_number g ->
      max_attempts g - (attempts_used g + 1) <= 0 ->
      way x g w
        (Return (mkGuessResponse lose 0 (Some (secret_number g))))
        (set_is_over true (counted g))
        (recorded add_loss (player_name g) w)
  | way_continue res :
      is_over g = false -> in_range g x -> x <> secret_number g ->
      0 < max_attempts g - (attempts_used g + 1) ->
      res = too_high \/ res = too_low ->
      way x g w
        (Return (mkGuessResponse res
                   (max_attempts g - (attempts_used g + 1)) None))
        (counted g) w.




(** The value of a digit string given least significant digit first. *)
Definition val_le (s : str) : N :=
  fold_right (fun c acc => 10 * acc + (c - ZERO))%N 0%N s.

(** A character of a printed integer. *)
Definition num_char (c : N) : Prop := c = MINUS \/ isdigit c = true.

(** A record's line without its final "\n". *)
Definition record_body (item : str * PlayerRecord) : str :=
  item.1 ++ SEMICOLON :: format_d (wins item.2)
         ++ SEMICOLON :: format_d (losses item.2).

(** A name that the ledger file can hold: no ";", no line break, and
    no whitespace in front. *)
Definition safe_char (c : N) : bool :=
  negb (c =? SEMICOLON)%N && negb (c =? LF)%N && negb (c =? CR)%N.

Definition safe_name (name : str) : bool :=
  forallb safe_char name
  && match name with
     | c :: _ => negb (isspace c)
     | [] => true
     end.

(** A ledger: unique names, all of which the file can hold. *)
Definition ledger_ok (st : dict PlayerRecord) : Prop :=
  NoDup (dict_keys st) /\ Forall (fun name => safe_name name = true) (dict_keys st).

(** Sample data. *)
Definition bob : str := of_string "bob".
Definition alice : str := of_string "alice".
Definition carol : str := of_string "carol".
Definition game1 : str := of_string "0123456789abcdef0123456789abcdef".
Definition game2 : str := of_string "fedcba9876543210fedcba9876543210".

Definition empty_world : World := mkWorld ∅ [] None.

(** A player whose name starts with a space, and one whose name holds a
    line break. *)
Definition spaced_world : World :=
  mkWorld ∅ [(of_string " a", mkPlayerRecord 1 0)] None.

Definition two_line_world : World :=
  mkWorld ∅ [(of_string "a" ++ [LF] ++ of_string "b", mkPlayerRecord 1 0)]
          None.

(** Bob won a range-10 game with secret 7 at his third guess. *)
Definition won_game : Game := mkGame 7 10 5 3 true bob.

Definition won_world : World :=
  mkWorld {[ game1 := won_game ]}
          [(bob, mkPlayerRecord 1 0)]
          (Some (of_string "bob;1;0" ++ [LF])).

(** A running game of Bob and one of Alice. *)
Definition bob_game : Game := mkGame 7 10 5 0 false bob.
Definition alice_game : Game := mkGame 13 20 4 3 false alice.

Definition busy_world : World :=
  mkWorld (<[ game1 := bob_game ]> {[ game2 := alice_game ]})
          [(bob, mkPlayerRecord 2 1); (alice, mkPlayerRecord 0 4)]
          None.

(* ===================================================================== *)
(** ** Notions for the properties of the whole service *)
(* ===================================================================== *)

(** A player's counters, a missing record counting as zeroed. *)
Definition wins_of (p : str) (w : World) : Z :=
  wins (default zero_record (dict_get (stats w) p)).

Definition losses_of (p : str) (w : World) : Z :=
  losses (default zero_record (dict_get (stats w) p)).

Definition Result_eqb (a b : Result) : bool :=
  match a, b with
  | too_high, too_high | too_low, too_low | correct, correct
  | win, win | lose, lose | game_over, game_over => true
  | _, _ => false
  end.

(** How many of the outcomes are responses with the result [res]. *)
Fixpoint count_result (res : Result) (rs : list (outcome GuessResponse)) : Z :=
  match rs with
  | [] => 0
  | Return resp :: rs' =>
      (if Result_eqb (result resp) res then 1 else 0) + count_result res rs'
  | Raise _ :: rs' => count_result res rs'
  end.

(** The attempts of a game are within its budget, and a game that is not
    over has an attempt left. *)
Definition game_ok (g : Game) : Prop :=
  0 <= attempts_used g <= max_attempts g
  /\ (is_over g = false -> attempts_used g < max_attempts g).

Definition registry_ok (w : World) : Prop :=
  forall gid g, games w !! gid = Some g -> game_ok g.

(** [g'] is a later state of the game [g]. *)
Definition game_advances (g g' : Game) : Prop :=
  secret_number g' = secret_number g
  /\ number_range g' = number_range g
  /\ max_attempts g' = max_attempts g
  /\ player_name g' = player_name g
  /\ attempts_used g <= attempts_used g'
  /\ (is_over g = true -> g' = g).

(** The request starts a game for which [gid] is drawn as its id. *)
Definition draws_id (gid : str) (req : request) : Prop :=
  match req with
  | PostStartGame _ i _ _ => i = gid
  | _ => False
  end.

(** The player name a start-game request brings is one the ledger file
    can hold. *)
Definition safe_request (req : request) : Prop :=
  match req with
  | PostStartGame _ _ _ p => safe_name p = true
  | _ => True
  end.

(** The file holds the ledger but for zeroed records added since it was
    last written: loading it gives [st0], and [stats] is [st0] followed by
    zeroed records. *)
Definition synced (w : World) : Prop :=
  exists st0 zeros,
    (load_stats w).1 = Return st0
    /\ stats w = st0 ++ zeros
    /\ Forall (fun item : str * PlayerRecord => item.2 = zero_record) zeros.

(** What the service keeps true when the names it is given are safe. *)
Definition service_ok (w : World) : Prop :=
  ledger_ok (stats w)
  /\ (forall gid g, games w !! gid = Some g ->
        safe_name (player_name g) = true)
  /\ synced w.

(** A line of [scores.txt] that is blank once stripped. *)
Definition blank (line : str) : Prop :=
  Forall (fun c => isspace c = true) line.

(** More sample data: a ledger file written by hand, with a blank line
    and Bob listed twice. *)
Definition hand_written : str :=
  of_string "bob;1;0" ++ [LF] ++ of_string "  " ++ [LF]
  ++ of_string "alice;0;4" ++ [LF] ++ of_string "bob;5;2" ++ [LF].

(** A stripped line that [load_stats] cannot read: it does not have
    exactly two ";", or one of its two number fields is not an integer. *)
Definition malformed (line : str) : Prop :=
  count_occ N.eq_dec (strip line) SEMICOLON <> 2%nat
  \/ exists name wins_str losses_str,
       split SEMICOLON (strip line) = [name; wins_str; losses_str]
       /\ (int wins_str = None \/ int losses_str = None).

(** A line as [for line in f] yields it: no "\r", and no "\n" but
    possibly one at the end. *)
Definition line_ok (line : str) : Prop :=
  Forall (fun c => c <> CR) line
  /\ exists body, Forall (fun c => c <> LF) body
                  /\ (line = body ++ [LF] \/ line = body).

(** The limits within which reading and writing [scores.txt] cannot fail
    for a reason this model leaves out (a text the file's codec cannot
    hold, a number with more digits than the interpreter converts): names
    in ASCII, counters of at most 601 digits. *)
Definition ascii (s : str) : Prop := Forall (fun c => (c < 128)%N) s.

Definition small : Z := 10 ^ 600.

(** A file in ASCII whose lines have at most 600 characters. *)
Definition small_file (file : option str) : Prop :=
  match file with
  | Some text =>
      ascii text
      /\ Forall (fun line : str => (length line <= 600)%nat)
                (readlines (universal_newlines text))
  | None => True
  end.

(** A start-game request whose player name is safe and in ASCII. *)
Definition plain_request (req : request) : Prop :=
  match req with
  | PostStartGame _ _ _ p => safe_name p = true /\ ascii p
  | _ => True
  end.

(** A record with an ASCII name and counters within [B]. *)
Definition item_within (B : Z) (item : str * PlayerRecord) : Prop :=
  ascii item.1
  /\ - B <= wins item.2 <= B /\ - B <= losses item.2 <= B.

Definition within_limits (B : Z) (w : World) : Prop :=
  Forall (item_within B) (stats w)
  /\ forall gid g, games w !! gid = Some g -> ascii (player_name g).

(* ===================================================================== *)
(** ** Dictionaries *)
(* ===================================================================== *)

Section Dict.
Context {V : Type}.
Implicit Types (d : dict V) (k : str) (v : V).

Lemma dict_get_set_eq d k v : dict_get (dict_set d k v) k = Some v.
Proof.
  induction d as [|[k' v'] d IH]; simpl.
  - by rewrite bool_decide_eq_true_2.
  - destruct (bool_decide (k' = k)) eqn:E; simpl; rewrite E; auto.
Qed.

Lemma dict_get_set_ne d k k' v :
  k <> k' -> dict_get (dict_set d k v) k' = dict_get d k'.
Proof.
  intros Hne. induction d as [|[k0 v0] d IH]; simpl.
  - by rewrite bool_decide_eq_false_2.
  - destruct (bool_decide (k0 = k)) eqn:E; simpl.
    + apply bool_decide_eq_true_1 in E. subst k0.
      by rewrite bool_decide_eq_false_2.
    + by rewrite IH.
Qed.

Lemma dict_set_set d k v v' :
  dict_set (dict_set d k v) k v' = dict_set d k v'.
Proof.
  induction d as [|[k0 v0] d IH]; simpl.
  - by rewrite bool_decide_eq_true_2.
  - destruct (bool_decide (k0 = k)) eqn:E; simpl; rewrite E; congruence.
Qed.

Lemma dict_get_None d k : dict_get d k = None <-> k ∉ dict_keys d.
Proof.
  induction d as [|[k0 v0] d IH]; simpl.
  - split; [intros _; apply not_elem_of_nil | done].
  - rewrite not_elem_of_cons, <- IH. case_bool_decide; split.
    + done.
    + intros [? ?]; congruence.
    + intros ?; split; [congruence | done].
    + by intros [_ ?].
Qed.

Lemma dict_set_fresh d k v :
  k ∉ dict_keys d -> dict_set d k v = d ++ [(k, v)].
Proof.
  induction d as [|[k0 v0] d IH]; simpl; [done |].
  rewrite not_elem_of_cons. intros [Hne Hd].
  rewrite bool_decide_eq_false_2 by congruence. by rewrite IH.
Qed.

Lemma dict_keys_set_present d k v :
  k ∈ dict_keys d -> dict_keys (dict_set d k v) = dict_keys d.
Proof.
  induction d as [|[k0 v0] d IH]; simpl.
  - intros H. by apply elem_of_nil in H.
  - case_bool_decide; simpl; [done |].
    rewrite elem_of_cons. intros [-> | Hin]; [done |]. by rewrite IH.
Qed.

(** Keys stay unique: the invariant that makes the list a dictionary. *)
Lemma dict_set_NoDup d k v :
  NoDup (dict_keys d) -> NoDup (dict_keys (dict_set d k v)).
Proof.
  intros Hnd. destruct (decide (k ∈ dict_keys d)) as [Hin | Hnin].
  - by rewrite dict_keys_set_present.
  - rewrite dict_set_fresh by done. unfold dict_keys.
    rewrite List.map_app. simpl. apply NoDup_app. split; [done |].
    split; [| apply NoDup_singleton].
    intros x Hx Hx'. apply list_elem_of_singleton in Hx'. by subst x.
Qed.
End Dict.

(* ===================================================================== *)
(** ** The stats helpers *)
(* ===================================================================== *)

Ltac run :=
  unfold record_result, update_record, ensure_player_stats, save_stats,
    get_player_stats, get_player_stats_data, dict_mem,
    bind, ret, raise, modify, lift, except_ValueError,
    the_game, on_game, in_world; simpl.

Lemma stats_grow_refl w : stats_grow w w.
Proof. intros name r H. exists r. repeat split; [done | lia | lia]. Qed.

Lemma stats_grow_trans w1 w2 w3 :
  stats_grow w1 w2 -> stats_grow w2 w3 -> stats_grow w1 w3.
Proof.
  intros H12 H23 name r H.
  destruct (H12 name r H) as (r2 & H2 & ? & ?).
  destruct (H23 name r2 H2) as (r3 & H3 & ? & ?).
  exists r3. repeat split; [done | lia | lia].
Qed.

Lemma ensure_player_stats_spec p w :
  ensure_player_stats p w =
    (Return tt,
     match dict_get (stats w) p with
     | Some _ => w
     | None => set_stats (stats w ++ [(p, zero_record)]) w
     end).
Proof.
  run. destruct (dict_get (stats w) p) eqn:E; simpl; [done |].
  by rewrite dict_set_fresh by by apply dict_get_None.
Qed.

Lemma record_result_win p w :
  record_result p win w = (Return tt, recorded add_win p w).
Proof.
  run. unfold recorded.
  destruct (dict_get (stats w) p) as [r|] eqn:E; simpl.
  - by rewrite E.
  - rewrite dict_get_set_eq. simpl. by rewrite dict_set_set.
Qed.

Lemma record_result_lose p w :
  record_result p lose w = (Return tt, recorded add_loss p w).
Proof.
  run. unfold recorded.
  destruct (dict_get (stats w) p) as [r|] eqn:E; simpl.
  - by rewrite E.
  - rewrite dict_get_set_eq. simpl. by rewrite dict_set_set.
Qed.

Lemma recorded_get_same f p w :
  dict_get (stats (recorded f p w)) p
  = Some (f (default zero_record (dict_get (stats w) p))).
Proof. unfold recorded. simpl. apply dict_get_set_eq. Qed.

Lemma recorded_get_other f p q w :
  q <> p -> dict_get (stats (recorded f p w)) q = dict_get (stats w) q.
Proof. intros Hne. unfold recorded. simpl. by apply dict_get_set_ne. Qed.

Lemma recorded_saved f p w :
  scores_txt (recorded f p w) = Some (save_text (stats (recorded f p w))).
Proof. done. Qed.

Lemma recorded_grow f p w :
  (forall r, wins r <= wins (f r) /\ losses r <= losses (f r)) ->
  stats_grow w (recorded f p w).
Proof.
  intros Hf name r H. destruct (decide (name = p)) as [-> | Hne].
  - rewrite recorded_get_same, H. simpl. exists (f r). split; [done | apply Hf].
  - rewrite recorded_get_other by done. exists r.
    repeat split; [done | lia | lia].
Qed.

Lemma add_win_grows r :
  wins r <= wins (add_win r) /\ losses r <= losses (add_win r).
Proof. simpl. lia. Qed.

Lemma add_loss_grows r :
  wins r <= wins (add_loss r) /\ losses r <= losses (add_loss r).
Proof. simpl. lia. Qed.

Lemma ensure_player_stats_grow p w :
  stats_grow w (ensure_player_stats p w).2.
Proof.
  rewrite ensure_player_stats_spec. simpl.
  destruct (dict_get (stats w) p) eqn:E; [apply stats_grow_refl |].
  intros name r H. exists r. simpl.
  rewrite <- dict_set_fresh by by apply dict_get_None.
  rewrite dict_get_set_ne by congruence. repeat split; [done | lia | lia].
Qed.

(* ===================================================================== *)
(** ** The five ways through [apply_guess_to_game] *)
(* ===================================================================== *)

Arguments record_result : simpl never.

Ltac run_game :=
  unfold apply_guess_to_game, bind, ret, raise, the_game, on_game, in_world;
  simpl.

Lemma check_guess_correct s x : check_guess s x = correct <-> x = s.
Proof.
  unfold check_guess.
  destruct (Z.gtb_spec x s), (Z.ltb_spec x s); split; (done || lia).
Qed.

Lemma check_guess_cases s x :
  (x = s /\ check_guess s x = correct)
  \/ (x > s /\ check_guess s x = too_high)
  \/ (x < s /\ check_guess s x = too_low).
Proof.
  unfold check_guess.
  destruct (Z.gtb_spec x s), (Z.ltb_spec x s).
  - lia.
  - right. left. split; [lia | done].
  - right. right. split; [lia | done].
  - left. split; [lia | done].
Qed.

Lemma apply_guess_over x g w :
  is_over g = true ->
  apply_guess_to_game x (g, w) =
    (Return (mkGuessResponse game_over (max_attempts g - attempts_used g)
                             (Some (secret_number g))),
     (g, w)).
Proof. intros H. run_game. by rewrite H. Qed.

Lemma apply_guess_invalid x g w :
  is_over g = false -> x < 1 \/ x > number_range g ->
  apply_guess_to_game x (g, w) =
    (Raise (HTTPException 400
              (of_string "Guess must be between 1 and "
               ++ format_d (number_range g))),
     (g, w)).
Proof.
  intros H Hx. run_game. rewrite H.
  destruct (Z.ltb_spec x 1), (Z.gtb_spec x (number_range g));
    simpl; (done || lia).
Qed.

Lemma apply_guess_win x g w :
  is_over g = false -> in_range g x -> x = secret_number g ->
  apply_guess_to_game x (g, w) =
    (Return (mkGuessResponse win (max_attempts g - (attempts_used g + 1))
                             (Some (secret_number g))),
     (set_is_over true (counted g), recorded add_win (player_name g) w)).
Proof.
  intros H [H1 H2] Hx. run_game. rewrite H.
  destruct (Z.ltb_spec x 1), (Z.gtb_spec x (number_range g)); try lia.
  simpl. apply check_guess_correct in Hx. rewrite Hx.
  by rewrite record_result_win.
Qed.

Lemma apply_guess_lose x g w :
  is_over g = false -> in_range g x -> x <> secret_number g ->
  max_attempts g - (attempts_used g + 1) <= 0 ->
  apply_guess_to_game x (g, w) =
    (Return (mkGuessResponse lose 0 (Some (secret_number g))),
     (set_is_over true (counted g), recorded add_loss (player_name g) w)).
Proof.
  intros H [H1 H2] Hx Hleft. run_game. rewrite H.
  destruct (Z.ltb_spec x 1), (Z.gtb_spec x (number_range g)); try lia.
  simpl.
  destruct (check_guess_cases (secret_number g) x) as [[? _] | [[_ ->] | [_ ->]]];
    [done | | ]; simpl;
    (destruct (Z.leb_spec (max_attempts g - (attempts_used g + 1)) 0);
     [| lia]); simpl; by rewrite record_result_lose.
Qed.

Lemma apply_guess_continue x g w :
  is_over g = false -> in_range g x -> x <> secret_number g ->
  0 < max_attempts g - (attempts_used g + 1) ->
  apply_guess_to_game x (g, w) =
    (Return (mkGuessResponse (check_guess (secret_number g) x)
                             (max_attempts g - (attempts_used g + 1)) None),
     (counted g, w))
  /\ (check_guess (secret_number g) x = too_high
      \/ check_guess (secret_number g) x = too_low).
Proof.
  intros H [H1 H2] Hx Hleft. run_game. rewrite H.
  destruct (Z.ltb_spec x 1), (Z.gtb_spec x (number_range g)); try lia.
  simpl.
  destruct (check_guess_cases (secret_number g) x) as [[? _] | [[_ ->] | [_ ->]]];
    [done | | ]; simpl;
    (destruct (Z.leb_spec (max_attempts g - (attempts_used g + 1)) 0);
     [lia |]); simpl; auto.
Qed.

Lemma apply_guess_way x g w :
  let r := apply_guess_to_game x (g, w) in way x g w r.1 r.2.1 r.2.2.
Proof.
  simpl. destruct (is_over g) eqn:Hover.
  - rewrite apply_guess_over by done. by constructor.
  - destruct (decide (in_range g x)) as [Hin | Hout].
    + destruct (decide (x = secret_number g)) as [Heq | Hne].
      * rewrite apply_guess_win by done. by constructor.
      * destruct (Z_le_gt_dec (max_attempts g - (attempts_used g + 1)) 0).
        -- rewrite apply_guess_lose by done. by constructor.
        -- destruct (apply_guess_continue x g w) as [-> Hres];
             [done | done | done | lia |].
           simpl. constructor; (done || lia).
    + rewrite apply_guess_invalid; [by constructor | done |].
      unfold in_range in Hout. lia.
Qed.

(** The registry is not touched by the call itself, and the game keeps
    the fields fixed at creation. *)
Lemma way_frame x g w r g' w' :
  way x g w r g' w' ->
  games w' = games w
  /\ secret_number g' = secret_number g
  /\ number_range g' = number_range g
  /\ max_attempts g' = max_attempts g
  /\ player_name g' = player_name g.
Proof. by destruct 1. Qed.

Lemma way_stats x g w r g' w' :
  way x g w r g' w' ->
  (forall q, q <> player_name g ->
     dict_get (stats w') q = dict_get (stats w) q)
  /\ stats_grow w w'
  /\ (w' = w
      \/ exists resp, r = Return resp
           /\ (result resp = win \/ result resp = lose)
           /\ scores_txt w' = Some (save_text (stats w'))).
Proof.
  destruct 1; repeat split;
    try done; try apply stats_grow_refl; try (by left);
    try (intros q Hq; by apply recorded_get_other);
    try (apply recorded_grow; apply add_win_grows || apply add_loss_grows);
    right; eexists; (split; [done |]); split; auto.
Qed.

Lemma check_guess_endpoint_found gid x w g :
  games w !! gid = Some g ->
  check_guess_endpoint gid x w =
    let r := apply_guess_to_game x (g, w) in
    (r.1, set_games (<[gid := r.2.1]> (games r.2.2)) r.2.2).
Proof.
  intros H. unfold check_guess_endpoint, bind, get_game_or_404.
  by rewrite H.
Qed.

Lemma check_guess_endpoint_missing gid x w :
  games w !! gid = None ->
  check_guess_endpoint gid x w =
    (Raise (HTTPException 404 (of_string "Game not found")), w).
Proof.
  intros H. unfold check_guess_endpoint, bind, get_game_or_404.
  by rewrite H.
Qed.

Lemma set_games_same gid g w :
  games w !! gid = Some g -> set_games (<[gid := g]> (games w)) w = w.
Proof.
  intros H. unfold set_games. rewrite insert_id by done. by destruct w.
Qed.

(** A game at difficulty 1 with secret 7: 10 is too high, 1 is too low,
    7 wins with two attempts left, and any later guess is answered with
    [game_over]. *)
Example scenario_win :
  (play [10; 1; 7; 5] (bob_game, empty_world)).1
  = [Return (mkGuessResponse too_high 4 None);
     Return (mkGuessResponse too_low 3 None);
     Return (mkGuessResponse win 2 (Some 7));
     Return (mkGuessResponse game_over 2 (Some 7))].
Proof. reflexivity. Qed.

(** Guesses 0 and 11 on a range-10 game are refused and do not count. *)
Example scenario_invalid :
  (play [0; 11] (bob_game, empty_world)).2 = (bob_game, empty_world).
Proof. reflexivity. Qed.

(* ===================================================================== *)
(** ** Difficulty table *)
(* ===================================================================== *)

Lemma create_game_valid s i d p w nr ma :
  choose_difficulty_from_number d = Return (nr, ma) ->
  create_game s i d p w =
    (Return (mkStartGameResponse i nr ma),
     set_games (<[i := mkGame s nr ma 0 false p]> (games w))
               (ensure_player_stats p w).2).
Proof.
  intros H. unfold create_game, bind, except_ValueError, lift, modify, ret.
  rewrite H. simpl. rewrite ensure_player_stats_spec. simpl.
  by destruct (dict_get (stats w) p).
Qed.

Lemma create_game_invalid s i d p w msg :
  choose_difficulty_from_number d = Raise (ValueError msg) ->
  create_game s i d p w = (Raise (ValueError msg), w).
Proof.
  intros H. unfold create_game, bind, except_ValueError, lift, raise.
  by rewrite H.
Qed.

(** C2: [choose_difficulty_from_number] and [create_game] map difficulty 1
    to (number_range, max_attempts) = (10, 5), 2 to (20, 4) and 3 to
    (50, 3), and the created game is stored with these parameters; any
    other difficulty raises [ValueError("Invalid difficulty")], which the
    endpoint turns into a 400, and nothing is created: the world is
    unchanged. *)
Theorem difficulty_table (s : Z) (i p : str) (w : World) (d : Z) :
  (forall nr ma,
     (d = 1 /\ nr = 10 /\ ma = 5) \/ (d = 2 /\ nr = 20 /\ ma = 4)
     \/ (d = 3 /\ nr = 50 /\ ma = 3) ->
     choose_difficulty_from_number d = Return (nr, ma)
     /\ (create_game s i d p w).1 = Return (mkStartGameResponse i nr ma)
     /\ (start_game s i d p w).1 = Return (mkStartGameResponse i nr ma)
     /\ games (create_game s i d p w).2 !! i
        = Some (mkGame s nr ma 0 false p))
  /\ (d <> 1 -> d <> 2 -> d <> 3 ->
      choose_difficulty_from_number d
      = Raise (ValueError (of_string "Invalid difficulty"))
      /\ create_game s i d p w
         = (Raise (ValueError (of_string "Invalid difficulty")), w)
      /\ start_game s i d p w
         = (Raise (HTTPException 400
                     (of_string "Invalid difficulty. Use 1, 2, or 3.")), w)).
Proof.
  split.
  - intros nr ma Hd.
    assert (Hc : choose_difficulty_from_number d = Return (nr, ma))
      by (destruct Hd as [(-> & -> & ->) | [(-> & -> & ->) | (-> & -> & ->)]];
          done).
    split; [done |]. unfold start_game, except_ValueError.
    rewrite (create_game_valid s i d p w nr ma Hc). simpl.
    repeat split. apply lookup_insert_eq.
  - intros H1 H2 H3.
    assert (Hc : choose_difficulty_from_number d
                 = Raise (ValueError (of_string "Invalid difficulty"))).
    { unfold choose_difficulty_from_number.
      destruct (Z.eqb_spec d 1); [done |].
      destruct (Z.eqb_spec d 2); [done |].
      by destruct (Z.eqb_spec d 3). }
    split; [done |]. unfold start_game, except_ValueError.
    by rewrite (create_game_invalid s i d p w _ Hc).
Qed.

Lemma difficulty_table_witness :
  (4 <> 1 /\ 4 <> 2 /\ 4 <> 3)
  /\ (create_game 7 game1 2 bob empty_world).1
     = Return (mkStartGameResponse game1 20 4)
  /\ create_game 7 game1 4 bob empty_world
     = (Raise (ValueError (of_string "Invalid difficulty")), empty_world).
Proof.
  split; [lia |]. split.
  - apply (proj1 (difficulty_table 7 game1 bob empty_world 2) 20 4). lia.
  - apply (proj2 (difficulty_table 7 game1 bob empty_world 4)); lia.
Defined.

Lemma start_game_valid s i d p w nr ma :
  choose_difficulty_from_number d = Return (nr, ma) ->
  start_game s i d p w = create_game s i d p w.
Proof.
  intros H. unfold start_game, except_ValueError.
  by rewrite (create_game_valid s i d p w nr ma H).
Qed.

(* ===================================================================== *)
(** ** Guesses on a finished game, and guesses out of range *)
(* ===================================================================== *)

Lemma endpoint_over gid x w g :
  games w !! gid = Some g -> is_over g = true ->
  check_guess_endpoint gid x w = (Return (over_response g), w).
Proof.
  intros Hg Hover. rewrite (check_guess_endpoint_found gid x w g Hg).
  rewrite apply_guess_over by done. simpl. by rewrite set_games_same.
Qed.

Lemma endpoint_invalid gid x w g :
  games w !! gid = Some g -> is_over g = false ->
  x < 1 \/ number_range g < x ->
  check_guess_endpoint gid x w = (Raise (invalid_guess g), w).
Proof.
  intros Hg Hover Hx. rewrite (check_guess_endpoint_found gid x w g Hg).
  rewrite apply_guess_invalid by (done || lia). simpl.
  by rewrite set_games_same.
Qed.

Lemma play_over guesses g w :
  is_over g = true ->
  play guesses (g, w)
  = (List.map (fun _ => Return (over_response g)) guesses, (g, w)).
Proof.
  intros Hover. induction guesses as [|x guesses IH]; simpl; [done |].
  rewrite apply_guess_over by done. simpl. by rewrite IH.
Qed.

(** C3: on a game whose [is_over] flag is set, every call of
    [apply_guess_to_game], with any guess, returns [game_over] with
    attempts_left = max_attempts - attempts_used and the secret as
    correct_number, and changes neither the game nor the world (so no
    player's stats); any sequence of further calls gives that same response
    every time, and so does the endpoint, which leaves the whole world as
    it was. *)
Theorem game_over_replay (g : Game) (w : World) (x : Z) (guesses : list Z)
    (gid : str) :
  is_over g = true ->
  let resp := mkGuessResponse game_over (max_attempts g - attempts_used g)
                              (Some (secret_number g)) in
  apply_guess_to_game x (g, w) = (Return resp, (g, w))
  /\ play guesses (g, w) = (List.map (fun _ => Return resp) guesses, (g, w))
  /\ (games w !! gid = Some g ->
      check_guess_endpoint gid x w = (Return resp, w)).
Proof.
  intros Hover resp. split; [by apply apply_guess_over |].
  split; [by apply play_over |].
  intros Hg. by apply endpoint_over.
Qed.

Lemma game_over_replay_witness :
  is_over won_game = true
  /\ play [7; 0; 11; 3] (won_game, won_world)
     = (List.map (fun _ => Return (mkGuessResponse game_over 2 (Some 7)))
                 [7; 0; 11; 3],
        (won_game, won_world)).
Proof.
  split; [reflexivity |].
  apply (game_over_replay won_game won_world 0 [7; 0; 11; 3] game1).
  reflexivity.
Defined.

(** C4: on a game that is not over, a guess outside [1, number_range]
    makes [apply_guess_to_game] raise the 400 error "Guess must be between
    1 and number_range", and the game (attempts_used included) and the
    world are exactly as before; the same holds through the endpoint. *)
Theorem invalid_guess_rejected (g : Game) (w : World) (x : Z) (gid : str) :
  is_over g = false ->
  x < 1 \/ number_range g < x ->
  let e := HTTPException 400
             (of_string "Guess must be between 1 and "
              ++ format_d (number_range g)) in
  apply_guess_to_game x (g, w) = (Raise e, (g, w))
  /\ attempts_used (apply_guess_to_game x (g, w)).2.1 = attempts_used g
  /\ (games w !! gid = Some g ->
      check_guess_endpoint gid x w = (Raise e, w)).
Proof.
  intros Hover Hx e.
  assert (H : apply_guess_to_game x (g, w) = (Raise e, (g, w)))
    by (apply apply_guess_invalid; [done | lia]).
  split; [done |]. split; [by rewrite H |].
  intros Hg. by apply endpoint_invalid.
Qed.

Lemma invalid_guess_rejected_witness :
  (is_over bob_game = false /\ (11 < 1 \/ number_range bob_game < 11))
  /\ apply_guess_to_game 11 (bob_game, busy_world)
     = (Raise (HTTPException 400
                 (of_string "Guess must be between 1 and 10")),
        (bob_game, busy_world)).
Proof.
  split; [split; [reflexivity | right; reflexivity] |].
  apply (invalid_guess_rejected bob_game busy_world 11 game1).
  - reflexivity.
  - right. reflexivity.
Defined.

(** C5 as stated fails: the game [game1] of [won_world] exists and the
    guess 0 is outside [1, 10], yet the request is answered with a
    [game_over] response, not with a 400 error, because the game is
    over. *)
Lemma out_of_range_on_finished_game :
  games won_world !! game1 = Some won_game
  /\ ~ in_range won_game 0
  /\ check_guess_endpoint game1 0 won_world
     = (Return (mkGuessResponse game_over 2 (Some 7)), won_world)
  /\ forall detail,
       (check_guess_endpoint game1 0 won_world).1
       <> Raise (HTTPException 400 detail).
Proof.
  assert (Hg : games won_world !! game1 = Some won_game)
    by apply lookup_singleton_eq.
  assert (He : check_guess_endpoint game1 0 won_world
               = (Return (mkGuessResponse game_over 2 (Some 7)), won_world))
    by (by apply (endpoint_over game1 0 won_world won_game)).
  split; [done |]. split; [unfold in_range; simpl; lia |].
  split; [done |]. intros detail. by rewrite He.
Qed.

(** C5, amended: a check-guess request for an existing game with a guess
    outside [1, number_range] gets the 400 error when the game is not
    over; when the game is over it gets the [game_over] response.  The
    world is unchanged either way. *)
Theorem out_of_range_guess_response (gid : str) (x : Z) (w : World)
    (g : Game) :
  games w !! gid = Some g ->
  x < 1 \/ number_range g < x ->
  (is_over g = false ->
   check_guess_endpoint gid x w
   = (Raise (HTTPException 400
               (of_string "Guess must be between 1 and "
                ++ format_d (number_range g))), w))
  /\ (is_over g = true ->
      check_guess_endpoint gid x w
      = (Return (mkGuessResponse game_over
                   (max_attempts g - attempts_used g)
                   (Some (secret_number g))), w)).
Proof.
  intros Hg Hx. split; intros Hover.
  - by apply endpoint_invalid.
  - by apply endpoint_over.
Qed.

Lemma out_of_range_guess_response_witness :
  (games busy_world !! game2 = Some alice_game
   /\ (21 < 1 \/ number_range alice_game < 21)
   /\ is_over alice_game = false)
  /\ check_guess_endpoint game2 21 busy_world
     = (Raise (HTTPException 400
                 (of_string "Guess must be between 1 and 20")), busy_world).
Proof.
  assert (Hg : games busy_world !! game2 = Some alice_game).
  { unfold busy_world. simpl. rewrite lookup_insert_ne by done.
    apply lookup_singleton_eq. }
  split; [split; [done | split; [right; reflexivity | reflexivity]] |].
  apply (out_of_range_guess_response game2 21 busy_world alice_game Hg).
  - right. reflexivity.
  - reflexivity.
Defined.

(* ===================================================================== *)
(** ** The secret stays hidden while the game runs *)
(* ===================================================================== *)

(** C9: whenever [apply_guess_to_game] returns a response, the game is
    still active afterwards exactly when the result is [too_high] or
    [too_low], and then correct_number is null; the game is over
    afterwards exactly when the result is [win], [lose] or [game_over],
    and then correct_number is the secret.  So correct_number is the
    secret only in [win], [lose] and [game_over] responses. *)
Theorem secret_not_exposed (x : Z) (g : Game) (w : World)
    (resp : GuessResponse) :
  (apply_guess_to_game x (g, w)).1 = Return resp ->
  let g' := (apply_guess_to_game x (g, w)).2.1 in
  (is_over g' = false <->
   result resp = too_high \/ result resp = too_low)
  /\ (is_over g' = false -> correct_number resp = None)
  /\ (is_over g' = true <->
      result resp = win \/ result resp = lose
      \/ result resp = game_over)
  /\ (is_over g' = true -> correct_number resp = Some (secret_number g))
  /\ (correct_number resp <> None ->
      correct_number resp = Some (secret_number g) /\ is_over g' = true).
Proof.
  intros Hresp g'. subst g'.
  pose proof (apply_guess_way x g w) as Hway. simpl in Hway.
  destruct (apply_guess_to_game x (g, w)) as [r [g' w']]. simpl in *.
  subst r.
  inversion Hway as [Hover | | Hover | Hover | res Hover ? ? ? Hres];
    subst; simpl.
  - rewrite Hover. repeat split; try done; intuition discriminate.
  - repeat split; try done; intuition discriminate.
  - repeat split; try done; intuition discriminate.
  - rewrite Hover. destruct Hres as [-> | ->];
      repeat split; try done; intuition discriminate.
Qed.

Lemma secret_not_exposed_witness :
  (apply_guess_to_game 9 (bob_game, busy_world)).1
  = Return (mkGuessResponse too_high 4 None)
  /\ is_over (apply_guess_to_game 9 (bob_game, busy_world)).2.1 = false
  /\ correct_number (mkGuessResponse too_high 4 None) = None.
Proof.
  split; [reflexivity |]. split; [reflexivity |].
  apply (secret_not_exposed 9 bob_game busy_world
           (mkGuessResponse too_high 4 None)); reflexivity.
Defined.

(* ===================================================================== *)
(** ** What a guess may change *)
(* ===================================================================== *)

(** C10: a check-guess request on the game [g] stored under [gid], owned
    by player p, leaves under [gid] a game with the same secret, range,
    attempt budget and owner; every other entry of the registry is
    unchanged; the stats record of every player other than p is unchanged;
    and unless the call returns [win] or [lose], the ledger and the file
    are unchanged too. *)
Theorem guess_frame (gid : str) (x : Z) (w : World) (g : Game) :
  games w !! gid = Some g ->
  let r := check_guess_endpoint gid x w in
  (exists g', games r.2 !! gid = Some g'
     /\ secret_number g' = secret_number g
     /\ number_range g' = number_range g
     /\ max_attempts g' = max_attempts g
     /\ player_name g' = player_name g)
  /\ (forall gid', gid' <> gid -> games r.2 !! gid' = games w !! gid')
  /\ (forall q, q <> player_name g ->
        dict_get (stats r.2) q = dict_get (stats w) q)
  /\ ((stats r.2 = stats w /\ scores_txt r.2 = scores_txt w)
      \/ exists resp, r.1 = Return resp
           /\ (result resp = win \/ result resp = lose)).
Proof.
  intros Hg r. subst r. rewrite (check_guess_endpoint_found gid x w g Hg).
  pose proof (apply_guess_way x g w) as Hway. simpl in Hway.
  destruct (apply_guess_to_game x (g, w)) as [r [g' w']]. simpl in *.
  destruct (way_frame _ _ _ _ _ _ Hway) as (Hgames & Hs & Hr & Hm & Hp).
  destruct (way_stats _ _ _ _ _ _ Hway) as (Hother & _ & Hchange).
  split; [| split; [| split]].
  - exists g'. by rewrite lookup_insert_eq.
  - intros gid' Hne. rewrite lookup_insert_ne by done. by rewrite Hgames.
  - done.
  - destruct Hchange as [-> | (resp & -> & Hres & _)].
    + by left.
    + right. by exists resp.
Qed.

Lemma guess_frame_witness :
  games busy_world !! game1 = Some bob_game
  /\ game2 <> game1
  /\ games (check_guess_endpoint game1 7 busy_world).2 !! game2
     = games busy_world !! game2
  /\ alice <> player_name bob_game
  /\ dict_get (stats (check_guess_endpoint game1 7 busy_world).2) alice
     = dict_get (stats busy_world) alice.
Proof.
  assert (Hg : games busy_world !! game1 = Some bob_game)
    by apply lookup_insert_eq.
  assert (Hid : game2 <> game1) by discriminate.
  assert (Hp : alice <> player_name bob_game) by discriminate.
  destruct (guess_frame game1 7 busy_world bob_game Hg)
    as (_ & Hgames & Hstats & _).
  split; [done |]. split; [done |]. split; [by apply Hgames |].
  split; [done | by apply Hstats].
Defined.

(* ===================================================================== *)
(** ** Attempts accounting *)
(* ===================================================================== *)




(** The game [create_game] stores is fresh, whatever was drawn. *)
Lemma create_game_fresh s i d p w nr ma :
  choose_difficulty_from_number d = Return (nr, ma) ->
  exists g, games (create_game s i d p w).2 !! i = Some g /\ fresh g
            /\ secret_number g = s /\ player_name g = p.
Proof.
  intros H. rewrite (create_game_valid s i d p w nr ma H). simpl.
  eexists. rewrite lookup_insert_eq. split; [done |].
  unfold fresh. simpl. repeat split.
  revert H. unfold choose_difficulty_from_number.
  destruct (d =? 1); [intros [= <- <-]; lia |].
  destruct (d =? 2); [intros [= <- <-]; lia |].
  destruct (d =? 3); [intros [= <- <-]; lia | done].
Qed.

(* ===================================================================== *)
(** ** The ledger only grows *)
(* ===================================================================== *)

Lemma start_game_grow s i d p w : stats_grow w (start_game s i d p w).2.
Proof.
  destruct (choose_difficulty_from_number d) as [[nr ma]|e] eqn:E.
  - rewrite (start_game_valid s i d p w nr ma E).
    rewrite (create_game_valid s i d p w nr ma E).
    apply (ensure_player_stats_grow p w).
  - assert (create_game s i d p w = (Raise e, w)) as Hc.
    { unfold create_game, bind, except_ValueError, lift, raise.
      rewrite E. by destruct e. }
    unfold start_game, except_ValueError. rewrite Hc.
    destruct e; apply stats_grow_refl.
Qed.

Lemma check_guess_endpoint_grow gid x w :
  stats_grow w (check_guess_endpoint gid x w).2.
Proof.
  destruct (games w !! gid) as [g|] eqn:Hg.
  - rewrite (check_guess_endpoint_found gid x w g Hg).
    pose proof (apply_guess_way x g w) as Hway. simpl in Hway.
    destruct (apply_guess_to_game x (g, w)) as [r [g' w']]. simpl in *.
    by destruct (way_stats _ _ _ _ _ _ Hway) as (_ & Hgrow & _).
  - rewrite check_guess_endpoint_missing by done. apply stats_grow_refl.
Qed.

Lemma get_player_stats_pure p w : (get_player_stats p w).2 = w.
Proof. run. by destruct (dict_get (stats w) p). Qed.

Lemma handle_grow req w : stats_grow w (handle req w).2.
Proof.
  destruct req as [| name | s i d p | gid x | p]; simpl;
    try apply stats_grow_refl; unfold bind, ret.
  - pose proof (start_game_grow s i d p w) as H.
    by destruct (start_game s i d p w) as [[r|e] w'].
  - pose proof (check_guess_endpoint_grow gid x w) as H.
    by destruct (check_guess_endpoint gid x w) as [[r|e] w'].
  - pose proof (get_player_stats_pure p w) as H.
    destruct (get_player_stats p w) as [[r|e] w']; simpl in *; subst w';
      apply stats_grow_refl.
Qed.

Lemma serve_grow reqs : forall w, stats_grow w (serve reqs w).2.
Proof.
  induction reqs as [|req reqs IH]; intros w; simpl.
  - apply stats_grow_refl.
  - eapply stats_grow_trans; [apply handle_grow | apply IH].
Qed.

Lemma stats_grow_stats w w1 w2 :
  stats w2 = stats w1 -> stats_grow w w1 -> stats_grow w w2.
Proof. intros E H name r Hr. rewrite E. by apply H. Qed.

Lemma record_result_grow p res w : stats_grow w (record_result p res w).2.
Proof.
  destruct res;
    try (rewrite record_result_win; apply recorded_grow, add_win_grows);
    try (rewrite record_result_lose; apply recorded_grow, add_loss_grows);
    (eapply stats_grow_stats; [| apply (ensure_player_stats_grow p w)]);
    run; by destruct (dict_get (stats w) p).
Qed.

(* ===================================================================== *)
(** ** When a stats record comes into being *)
(* ===================================================================== *)

(** C8 as stated fails: in a world without any record, the first stats
    query for Bob raises the 404 "Player not found", and there is still
    no record for Bob afterwards. *)
Lemma stats_query_creates_nothing :
  dict_get (stats empty_world) bob = None
  /\ get_player_stats bob empty_world
     = (Raise (HTTPException 404 (of_string "Player not found")), empty_world)
  /\ dict_get (stats (get_player_stats bob empty_world).2) bob = None.
Proof. repeat split. Qed.

(** C8, amended: a record is created lazily by a game start.  For a name
    without a record, starting a game (with a valid difficulty) creates a
    zeroed record for it, while a stats query for it raises the 404
    "Player not found" and creates nothing.  For a name that has a record,
    starting a game leaves the ledger as it is and the query returns the
    record. *)
Theorem lazy_record_creation (name : str) (w : World) (s : Z) (i : str)
    (d nr ma : Z) :
  choose_difficulty_from_number d = Return (nr, ma) ->
  (dict_get (stats w) name = None ->
   dict_get (stats (start_game s i d name w).2) name
   = Some (mkPlayerRecord 0 0)
   /\ (forall q r, dict_get (stats w) q = Some r ->
         dict_get (stats (start_game s i d name w).2) q = Some r)
   /\ get_player_stats name w
      = (Raise (HTTPException 404 (of_string "Player not found")), w))
  /\ (forall r, dict_get (stats w) name = Some r ->
      stats (start_game s i d name w).2 = stats w
      /\ get_player_stats name w
         = (Return (mkStatsResponse name (wins r) (losses r)), w)).
Proof.
  intros Hd.
  rewrite (start_game_valid s i d name w nr ma Hd).
  rewrite (create_game_valid s i d name w nr ma Hd).
  simpl. rewrite ensure_player_stats_spec. simpl.
  split.
  - intros Hnone. rewrite Hnone. simpl.
    rewrite <- dict_set_fresh by by apply dict_get_None.
    split; [apply dict_get_set_eq |]. split.
    + intros q r Hq. rewrite dict_get_set_ne by congruence. done.
    + run. by rewrite Hnone.
  - intros r Hsome. rewrite Hsome. split; [done |].
    run. by rewrite Hsome.
Qed.

Lemma lazy_record_creation_witness :
  choose_difficulty_from_number 1 = Return (10, 5)
  /\ dict_get (stats busy_world) carol = None
  /\ dict_get (stats (start_game 7 game2 1 carol busy_world).2) carol
     = Some (mkPlayerRecord 0 0)
  /\ get_player_stats carol busy_world
     = (Raise (HTTPException 404 (of_string "Player not found")), busy_world).
Proof.
  assert (Hd : choose_difficulty_from_number 1 = Return (10, 5))
    by reflexivity.
  assert (Hnone : dict_get (stats busy_world) carol = None) by reflexivity.
  destruct (lazy_record_creation carol busy_world 7 game2 1 10 5 Hd)
    as [Habsent _].
  destruct (Habsent Hnone) as (Hnew & _ & Hquery).
  split; [done |]. split; [done |]. split; [exact Hnew | exact Hquery].
Defined.

(* ===================================================================== *)
(** ** Printing and reading integers *)
(* ===================================================================== *)

Lemma isdigit_range c : isdigit c = true <-> (48 <= c <= 57)%N.
Proof.
  unfold isdigit, ZERO. rewrite andb_true_iff, !N.leb_le. done.
Qed.

Lemma isdigit_not_space c : isdigit c = true -> isspace c = false.
Proof.
  rewrite isdigit_range. intros H. unfold isspace.
  repeat match goal with
         | |- context [(?a <=? ?b)%N] => destruct (N.leb_spec a b); try lia
         | |- context [(?a =? ?b)%N] => destruct (N.eqb_spec a b); try lia
         end; reflexivity.
Qed.

Lemma num_char_not_space c : num_char c -> isspace c = false.
Proof. intros [-> | H]; [reflexivity | by apply isdigit_not_space]. Qed.

Lemma num_char_plain c :
  num_char c -> c <> SEMICOLON /\ c <> LF /\ c <> CR.
Proof.
  intros [-> | H]; [by repeat split |].
  apply isdigit_range in H. unfold SEMICOLON, LF, CR. lia.
Qed.

Lemma digit_isdigit n : isdigit (ZERO + n mod 10) = true.
Proof.
  apply isdigit_range. unfold ZERO.
  assert (H : (n mod 10 < 10)%N) by by apply N.mod_upper_bound.
  revert H. generalize (n mod 10)%N. intros d H. lia.
Qed.

Lemma digits_le_head fuel n :
  exists rest, digits_le fuel n = (ZERO + n mod 10)%N :: rest.
Proof. destruct fuel; simpl; [| destruct (n <? 10)%N]; eauto. Qed.

Lemma digits_le_isdigit fuel : forall n,
  Forall (fun c => isdigit c = true) (digits_le fuel n).
Proof.
  induction fuel as [|fuel IH]; intros n; simpl.
  - repeat constructor. apply digit_isdigit.
  - destruct (n <? 10)%N; repeat constructor;
      (apply digit_isdigit || apply IH).
Qed.

(** With enough fuel the digits are those of [n]. *)
Lemma digits_le_val fuel : forall n,
  (n < 2 ^ N.of_nat (S fuel))%N -> val_le (digits_le fuel n) = n.
Proof.
  induction fuel as [|fuel IH]; intros n Hn.
  - change (2 ^ N.of_nat 1)%N with 2%N in Hn. simpl. unfold ZERO.
    rewrite N.mod_small by lia. lia.
  - cbn [digits_le]. destruct (N.ltb_spec n 10%N) as [Hsmall | Hbig].
    + simpl. unfold ZERO. rewrite N.mod_small by lia. lia.
    + cbn [val_le fold_right]. fold (val_le (digits_le fuel (n / 10))).
      rewrite IH.
      * unfold ZERO. rewrite (N.div_mod n 10%N) at 3 by done.
        generalize (n mod 10)%N (n / 10)%N. intros d q. lia.
      * rewrite Nat2N.inj_succ, N.pow_succ_r' in Hn.
        apply N.Div0.div_lt_upper_bound. lia.
Qed.

Lemma log2_fuel n : (n < 2 ^ N.of_nat (S (N.to_nat (N.log2 n))))%N.
Proof.
  rewrite Nat2N.inj_succ, N2Nat.id.
  destruct (N.eq_dec n 0%N) as [-> | Hn]; [done |].
  apply N.log2_spec. lia.
Qed.

Lemma digits_isdigit n : Forall (fun c => isdigit c = true) (digits n).
Proof. unfold digits. apply Forall_rev, digits_le_isdigit. Qed.

Lemma digits_last n :
  exists front c, digits n = front ++ [c] /\ isdigit c = true.
Proof.
  unfold digits.
  destruct (digits_le_head (N.to_nat (N.log2 n)) n) as [rest ->].
  exists (rev rest), (ZERO + n mod 10)%N. split; [done | apply digit_isdigit].
Qed.

Lemma digits_first n :
  exists c back, digits n = c :: back /\ isdigit c = true.
Proof.
  pose proof (digits_isdigit n) as Hall.
  destruct (digits_last n) as (front & c & E & Hc).
  destruct (digits n) as [|c' back]; [by destruct front |].
  exists c', back. split; [done |]. by apply Forall_cons in Hall as [? _].
Qed.

(** On a run of digits, [int_digits] is a left fold. *)
Lemma int_digits_run s : forall prev acc,
  Forall (fun c => isdigit c = true) s ->
  s <> [] ->
  int_digits s prev acc
  = Some (fold_left (fun a c => 10 * a + (c - ZERO))%N s acc).
Proof.
  induction s as [|c s IH]; intros prev acc Hall Hne; [done |].
  apply Forall_cons in Hall as [Hc Hs]. simpl. rewrite Hc.
  destruct s as [|c' s]; [done |]. by apply IH.
Qed.

Lemma fold_left_rev {A B} (f : A -> B -> A) (l : list B) (a : A) :
  fold_left f (rev l) a = fold_right (fun c acc => f acc c) a l.
Proof.
  induction l as [|c l IH]; simpl; [done |].
  rewrite fold_left_app. simpl. by rewrite IH.
Qed.

Lemma int_digits_digits n : int_digits (digits n) false 0%N = Some n.
Proof.
  rewrite int_digits_run.
  - unfold digits. rewrite fold_left_rev.
    f_equal. apply digits_le_val, log2_fuel.
  - apply digits_isdigit.
  - destruct (digits_first n) as (c & back & -> & _). done.
Qed.

Lemma format_d_chars z : Forall num_char (format_d z).
Proof.
  unfold format_d. destruct (z <? 0).
  - constructor; [by left |].
    eapply Forall_impl; [apply digits_isdigit |]. by right.
  - eapply Forall_impl; [apply digits_isdigit |]. by right.
Qed.

Lemma format_d_first z :
  exists c back, format_d z = c :: back /\ num_char c.
Proof.
  pose proof (format_d_chars z) as Hall.
  unfold format_d in *. destruct (z <? 0).
  - eexists _, _. split; [done | by left].
  - destruct (digits_first (Z.to_N z)) as (c & back & -> & Hc).
    eexists _, _. split; [done | by right].
Qed.

Lemma format_d_last z :
  exists front c, format_d z = front ++ [c] /\ num_char c.
Proof.
  unfold format_d. destruct (z <? 0).
  - destruct (digits_last (Z.to_N (- z))) as (front & c & -> & Hc).
    exists (MINUS :: front), c. split; [done | by right].
  - destruct (digits_last (Z.to_N z)) as (front & c & -> & Hc).
    exists front, c. split; [done | by right].
Qed.

(* ===================================================================== *)
(** ** Stripping, splitting and reading lines *)
(* ===================================================================== *)

Lemma lstrip_first c s : isspace c = false -> lstrip (c :: s) = c :: s.
Proof. intros H. simpl. by rewrite H. Qed.

Lemma rstrip_last s c : isspace c = false -> rstrip (s ++ [c]) = s ++ [c].
Proof.
  intros H. unfold rstrip. rewrite rev_app_distr. simpl. rewrite H.
  simpl. by rewrite rev_involutive.
Qed.

(** A text that neither starts nor ends with whitespace is its own
    [strip]. *)
Lemma strip_id c s c' :
  isspace c = false -> isspace c' = false ->
  strip (c :: s ++ [c']) = c :: s ++ [c'].
Proof.
  intros Hc Hc'. unfold strip. rewrite lstrip_first by done.
  by apply (rstrip_last (c :: s)).
Qed.

(** A line of the file: the final "\n" goes, the rest stays. *)
Lemma strip_line c s c' :
  isspace c = false -> isspace c' = false ->
  strip (c :: s ++ [c'] ++ [LF]) = c :: s ++ [c'].
Proof.
  intros Hc Hc'. unfold strip. rewrite lstrip_first by done.
  unfold rstrip. change (c :: s ++ [c'] ++ [LF]) with ((c :: s) ++ [c'] ++ [LF]).
  rewrite !rev_app_distr. simpl. rewrite Hc'. simpl.
  rewrite rev_app_distr, rev_involutive. simpl. done.
Qed.

Lemma format_d_shape z :
  (exists c, format_d z = [c] /\ num_char c)
  \/ (exists c s c', format_d z = c :: s ++ [c'] /\ num_char c /\ num_char c').
Proof.
  destruct (format_d_first z) as (c & back & E & Hc).
  destruct (format_d_last z) as (front & c' & E' & Hc').
  destruct front as [|c0 front].
  - left. exists c'. by rewrite E'.
  - right. rewrite E' in E. injection E as -> _.
    exists c, front, c'. by rewrite E'.
Qed.

Lemma strip_format_d z : strip (format_d z) = format_d z.
Proof.
  destruct (format_d_shape z) as [(c & -> & Hc) | (c & s & c' & -> & Hc & Hc')].
  - apply num_char_not_space in Hc. unfold strip, rstrip. simpl.
    rewrite Hc. simpl. by rewrite Hc.
  - apply strip_id; by apply num_char_not_space.
Qed.

Lemma num_char_ascii c : num_char c -> (c < 127)%N /\ ascii_space c = false.
Proof.
  intros [-> | H]; [done |]. apply isdigit_range in H.
  split; [lia |]. unfold ascii_space.
  destruct (N.leb_spec 9 c), (N.leb_spec c 13), (N.eqb_spec c 32);
    simpl; (done || lia).
Qed.

Lemma to_ascii_format_d z : List.map to_ascii (format_d z) = format_d z.
Proof.
  pose proof (format_d_chars z) as Hall.
  induction (format_d z) as [|c s IH]; [done |].
  apply Forall_cons in Hall as [Hc Hs]. simpl. rewrite IH by done.
  f_equal. unfold to_ascii. apply num_char_ascii in Hc as [Hc _].
  by destruct (N.ltb_spec c 127); [| lia].
Qed.

Lemma skip_spaces_format_d z :
  rev (skip_spaces (rev (skip_spaces (format_d z)))) = format_d z.
Proof.
  destruct (format_d_shape z) as [(c & -> & Hc) | (c & s & c' & -> & Hc & Hc')].
  - apply num_char_ascii in Hc as [_ Hc]. simpl. rewrite Hc. simpl.
    by rewrite Hc.
  - apply num_char_ascii in Hc as [_ Hc]. apply num_char_ascii in Hc' as [_ Hc'].
    cbn [skip_spaces]. rewrite Hc.
    change (c :: s ++ [c']) with ((c :: s) ++ [c']).
    rewrite (rev_app_distr (c :: s) [c']).
    change (rev [c'] ++ rev (c :: s)) with (c' :: rev (c :: s)).
    cbn [skip_spaces]. rewrite Hc'.
    change (c' :: rev (c :: s)) with ([c'] ++ rev (c :: s)).
    by rewrite rev_app_distr, rev_involutive.
Qed.

(** Reading back a printed integer. *)
Lemma int_format_d z : int (format_d z) = Some z.
Proof.
  unfold int. rewrite to_ascii_format_d, skip_spaces_format_d.
  unfold format_d.
  destruct (Z.ltb_spec z 0) as [Hneg | Hpos].
  - rewrite N.eqb_refl, int_digits_digits. simpl. f_equal. lia.
  - destruct (digits_first (Z.to_N z)) as (c & back & E & Hc).
    rewrite E. apply isdigit_range in Hc.
    destruct (N.eqb_spec c MINUS) as [-> | _]; [unfold MINUS in Hc; lia |].
    destruct (N.eqb_spec c PLUS) as [-> | _]; [unfold PLUS in Hc; lia |].
    rewrite <- E, int_digits_digits. simpl. f_equal. lia.
Qed.

Lemma split_field sep s :
  Forall (fun c => c <> sep) s -> split sep s = [s].
Proof.
  induction s as [|c s IH]; intros Hall; [done |].
  apply Forall_cons in Hall as [Hc Hs]. simpl.
  destruct (N.eqb_spec c sep); [done |]. by rewrite IH.
Qed.

Lemma split_fields sep s rest :
  Forall (fun c => c <> sep) s ->
  split sep (s ++ sep :: rest) = s :: split sep rest.
Proof.
  induction s as [|c s IH]; intros Hall; simpl.
  - by rewrite N.eqb_refl.
  - apply Forall_cons in Hall as [Hc Hs].
    destruct (N.eqb_spec c sep); [done |]. by rewrite IH.
Qed.

Lemma readlines_line body rest :
  Forall (fun c => c <> LF) body ->
  readlines (body ++ LF :: rest) = (body ++ [LF]) :: readlines rest.
Proof.
  induction body as [|c body IH]; intros Hall; simpl.
  - done.
  - apply Forall_cons in Hall as [Hc Hs].
    destruct (N.eqb_spec c LF); [done |]. by rewrite IH.
Qed.

Lemma universal_newlines_id s :
  Forall (fun c => c <> CR) s -> universal_newlines s = s.
Proof.
  induction s as [|c s IH]; intros Hall; [done |].
  apply Forall_cons in Hall as [Hc Hs]. simpl.
  destruct (N.eqb_spec c CR); [done |]. by rewrite IH.
Qed.

(* ===================================================================== *)
(** ** Saving the ledger and loading it back *)
(* ===================================================================== *)

Lemma format_record_body item : format_record item = record_body item ++ [LF].
Proof.
  unfold format_record, record_body. simpl.
  by rewrite <- !app_assoc; simpl; rewrite <- !app_assoc.
Qed.

Lemma safe_name_chars name :
  safe_name name = true ->
  Forall (fun c => c <> SEMICOLON /\ c <> LF /\ c <> CR) name.
Proof.
  unfold safe_name. rewrite andb_true_iff. intros [Hall _].
  rewrite forallb_forall in Hall. apply List.Forall_forall. intros c Hc.
  specialize (Hall c Hc). unfold safe_char in Hall.
  rewrite !andb_true_iff, !negb_true_iff, !N.eqb_neq in Hall. tauto.
Qed.

Lemma safe_name_first c name :
  safe_name (c :: name) = true -> isspace c = false.
Proof.
  unfold safe_name. rewrite andb_true_iff, negb_true_iff. by intros [_ ?].
Qed.

Lemma record_body_chars (P : N -> Prop) item :
  Forall P item.1 -> P SEMICOLON -> (forall c, num_char c -> P c) ->
  Forall P (record_body item).
Proof.
  intros Hname Hsep Hnum. unfold record_body.
  repeat first [apply Forall_app; split | apply Forall_cons; split];
    try done; (eapply Forall_impl; [apply format_d_chars | done]).
Qed.

Lemma record_body_shape item :
  safe_name item.1 = true ->
  exists c s c', record_body item = c :: s ++ [c']
                 /\ isspace c = false /\ isspace c' = false.
Proof.
  intros Hsafe. unfold record_body.
  destruct (format_d_last (losses item.2)) as (front & c' & -> & Hc').
  apply num_char_not_space in Hc'.
  destruct item.1 as [|c name].
  - exists SEMICOLON, (format_d (wins item.2) ++ SEMICOLON :: front), c'.
    simpl. rewrite <- app_assoc. done.
  - exists c, (name ++ SEMICOLON :: format_d (wins item.2)
                    ++ SEMICOLON :: front), c'.
    split; [| split; [by apply (safe_name_first c name) | done]].
    simpl. f_equal. rewrite <- !app_assoc. simpl. f_equal. f_equal.
    by rewrite <- app_assoc.
Qed.

Lemma strip_record item :
  safe_name item.1 = true -> strip (format_record item) = record_body item.
Proof.
  intros Hsafe. rewrite format_record_body.
  destruct (record_body_shape item Hsafe) as (c & s & c' & -> & Hc & Hc').
  change ((c :: s ++ [c']) ++ [LF]) with (c :: (s ++ [c']) ++ [LF]).
  rewrite <- app_assoc. by apply strip_line.
Qed.

Lemma split_record item :
  safe_name item.1 = true ->
  split SEMICOLON (record_body item)
  = [item.1; format_d (wins item.2); format_d (losses item.2)].
Proof.
  intros Hsafe. unfold record_body.
  assert (Hnum : forall z, Forall (fun c => c <> SEMICOLON) (format_d z)).
  { intros z. eapply Forall_impl; [apply format_d_chars |].
    intros c Hc. by apply num_char_plain in Hc as [? _]. }
  rewrite split_fields.
  - rewrite split_fields by apply Hnum. by rewrite split_field by apply Hnum.
  - eapply Forall_impl; [by apply safe_name_chars |]. by intros c [? _].
Qed.

(** One line of the file puts its record into the dictionary. *)
Lemma load_record item rest data :
  safe_name item.1 = true ->
  load_lines (format_record item :: rest) data
  = load_lines rest (dict_set data item.1 item.2).
Proof.
  intros Hsafe. cbn [load_lines]. rewrite strip_record by done.
  destruct (record_body_shape item Hsafe) as (c & s & c' & E & _).
  pose proof (split_record item Hsafe) as Hsplit.
  rewrite E in *. rewrite Hsplit, !int_format_d.
  by destruct item as [name [w l]].
Qed.

Lemma load_records st : forall data,
  Forall (fun name => safe_name name = true) (dict_keys st) ->
  load_lines (List.map format_record st) data
  = Return (fold_left (fun d item => dict_set d item.1 item.2) st data).
Proof.
  induction st as [|item st IH]; intros data Hsafe; [done |].
  apply Forall_cons in Hsafe as [Hitem Hst].
  cbn [List.map fold_left]. rewrite load_record by done. by apply IH.
Qed.

Lemma readlines_save st :
  Forall (fun name => safe_name name = true) (dict_keys st) ->
  readlines (save_text st) = List.map format_record st.
Proof.
  induction st as [|item st IH]; intros Hsafe; [done |].
  apply Forall_cons in Hsafe as [Hitem Hst].
  unfold save_text. cbn [List.map concat]. fold (save_text st).
  rewrite format_record_body, <- app_assoc. simpl.
  rewrite readlines_line; [by rewrite IH |].
  apply record_body_chars.
  - eapply Forall_impl; [by apply safe_name_chars |]. by intros c (_ & ? & _).
  - done.
  - intros c Hc. by apply num_char_plain in Hc as (_ & ? & _).
Qed.

Lemma save_text_no_CR st :
  Forall (fun name => safe_name name = true) (dict_keys st) ->
  Forall (fun c => c <> CR) (save_text st).
Proof.
  induction st as [|item st IH]; intros Hsafe; [constructor |].
  apply Forall_cons in Hsafe as [Hitem Hst].
  unfold save_text. cbn [List.map concat]. fold (save_text st).
  rewrite format_record_body. apply Forall_app. split; [| by apply IH].
  apply Forall_app. split; [| by repeat constructor].
  apply record_body_chars.
  - eapply Forall_impl; [by apply safe_name_chars |]. by intros c (_ & _ & ?).
  - done.
  - intros c Hc. by apply num_char_plain in Hc as (_ & _ & ?).
Qed.

(** Setting keys that are new and distinct appends the items in order. *)
Lemma fold_dict_set_fresh {V} (st : dict V) : forall data : dict V,
  NoDup (dict_keys data ++ dict_keys st) ->
  fold_left (fun d item => dict_set d item.1 item.2) st data = data ++ st.
Proof.
  induction st as [|[k v] st IH]; intros data Hnd; simpl.
  - by rewrite app_nil_r.
  - simpl in Hnd. rewrite dict_set_fresh.
    + rewrite IH; [by rewrite <- app_assoc |].
      unfold dict_keys in *. rewrite List.map_app. simpl.
      by rewrite <- app_assoc.
    + apply NoDup_app in Hnd as (_ & Hdisj & _).
      intros Hin. apply (Hdisj k Hin). by left.
Qed.

Lemma load_saved st :
  ledger_ok st ->
  load_lines (readlines (universal_newlines (save_text st))) [] = Return st.
Proof.
  intros [Hnd Hsafe].
  rewrite universal_newlines_id by by apply save_text_no_CR.
  rewrite readlines_save, load_records by done.
  by rewrite fold_dict_set_fresh.
Qed.

(* ===================================================================== *)
(** ** The ledger on file *)
(* ===================================================================== *)

(** C6: across any request, any sequence of requests and any call of
    [record_result], every player that has a record keeps one, with wins
    and losses at least as large as before.  Recording a win adds 1 to
    that player's wins (a missing record counting as zeroed) and leaves
    the player's losses and every other player's record as they were;
    recording a loss does the same with losses.  After either, and after
    every guess that returns [win] or [lose], the file holds the full
    ledger: its text is one line name;wins;losses per player, counters in
    decimal, in the ledger's order, and (the names being distinct and
    safe) loading the file gives exactly the ledger in memory. *)
Theorem stats_ledger (p : str) (w : World) :
  let written := fun st : dict PlayerRecord =>
    concat (List.map (fun item : str * PlayerRecord =>
                        item.1 ++ [SEMICOLON] ++ format_d (wins item.2)
                        ++ [SEMICOLON] ++ format_d (losses item.2) ++ [LF])
                     st) in
  let on_file := fun w' : World =>
    scores_txt w' = Some (written (stats w'))
    /\ (NoDup (dict_keys (stats w')) ->
        Forall (fun name => safe_name name = true) (dict_keys (stats w')) ->
        load_stats w' = (Return (stats w'), w')) in
  (forall req, stats_grow w (handle req w).2)
  /\ (forall reqs, stats_grow w (serve reqs w).2)
  /\ (forall res, stats_grow w (record_result p res w).2)
  /\ (let r := default (mkPlayerRecord 0 0) (dict_get (stats w) p) in
      let w' := (record_result p win w).2 in
      (record_result p win w).1 = Return tt
      /\ dict_get (stats w') p = Some (mkPlayerRecord (wins r + 1) (losses r))
      /\ (forall q, q <> p -> dict_get (stats w') q = dict_get (stats w) q)
      /\ on_file w')
  /\ (let r := default (mkPlayerRecord 0 0) (dict_get (stats w) p) in
      let w' := (record_result p lose w).2 in
      (record_result p lose w).1 = Return tt
      /\ dict_get (stats w') p = Some (mkPlayerRecord (wins r) (losses r + 1))
      /\ (forall q, q <> p -> dict_get (stats w') q = dict_get (stats w) q)
      /\ on_file w')
  /\ (forall x g resp,
        (apply_guess_to_game x (g, w)).1 = Return resp ->
        result resp = win \/ result resp = lose ->
        on_file (apply_guess_to_game x (g, w)).2.2).
Proof.
  intros written on_file.
  assert (Hfile : forall f q w0, on_file (recorded f q w0)).
  { intros f q w0. split; [done |]. intros Hnd Hsafe.
    unfold load_stats. cbn [scores_txt recorded].
    by rewrite load_saved. }
  split; [intros req; apply handle_grow |].
  split; [intros reqs; apply serve_grow |].
  split; [intros res; apply record_result_grow |].
  split; [| split].
  - rewrite record_result_win. cbn [fst snd]. split; [done |].
    split; [apply (recorded_get_same add_win) |].
    split; [| apply Hfile]. intros q Hq. by apply recorded_get_other.
  - rewrite record_result_lose. cbn [fst snd]. split; [done |].
    split; [apply (recorded_get_same add_loss) |].
    split; [| apply Hfile]. intros q Hq. by apply recorded_get_other.
  - intros x g resp Hresp Hres.
    pose proof (apply_guess_way x g w) as Hway. cbn [fst snd] in Hway.
    destruct (apply_guess_to_game x (g, w)) as [r [g' w']].
    cbn [fst snd] in *. subst r.
    inversion Hway as [| | | | res ? ? ? ? Hcont]; subst;
      try apply Hfile.
    + simpl in Hres. destruct Hres; discriminate.
    + simpl in Hres. destruct Hres as [-> | ->];
        destruct Hcont; discriminate.
Qed.

Lemma stats_ledger_witness :
  dict_get (stats busy_world) bob = Some (mkPlayerRecord 2 1)
  /\ dict_get (stats (record_result bob win busy_world).2) bob
     = Some (mkPlayerRecord 3 1)
  /\ alice <> bob
  /\ dict_get (stats (record_result bob win busy_world).2) alice
     = Some (mkPlayerRecord 0 4)
  /\ scores_txt (record_result bob win busy_world).2
     = Some (of_string "bob;3;1" ++ [LF] ++ of_string "alice;0;4" ++ [LF])
  /\ NoDup (dict_keys (stats (record_result bob win busy_world).2))
  /\ Forall (fun name => safe_name name = true)
            (dict_keys (stats (record_result bob win busy_world).2))
  /\ (load_stats (record_result bob win busy_world).2).1
     = Return [(bob, mkPlayerRecord 3 1); (alice, mkPlayerRecord 0 4)].
Proof.
  assert (Hne : alice <> bob) by discriminate.
  assert (Hnd : NoDup (dict_keys
                         (stats (record_result bob win busy_world).2))).
  { change (NoDup [bob; alice]). apply NoDup_cons.
    split; [| apply NoDup_singleton].
    intros H. apply list_elem_of_singleton in H. discriminate. }
  assert (Hsafe : Forall (fun name => safe_name name = true)
                    (dict_keys (stats (record_result bob win busy_world).2)))
    by (change (Forall (fun name => safe_name name = true) [bob; alice]);
        by repeat constructor).
  destruct (stats_ledger bob busy_world)
    as (_ & _ & _ & (_ & Hsame & Hother & Hsaved & Hload) & _).
  split; [reflexivity |]. split; [exact Hsame |]. split; [done |].
  split; [exact (Hother alice Hne) |]. split; [exact Hsaved |].
  split; [done |]. split; [done |].
  by rewrite (Hload Hnd Hsafe).
Defined.

(** In every world the service can reach, the names of the ledger are
    distinct. *)
Lemma load_lines_NoDup lines : forall data st,
  NoDup (dict_keys data) -> load_lines lines data = Return st ->
  NoDup (dict_keys st).
Proof.
  induction lines as [|line rest IH]; intros data st Hnd H; simpl in H.
  - by injection H as <-.
  - repeat case_match; try done;
      (eapply IH; [| eassumption]); (done || by apply dict_set_NoDup).
Qed.

Lemma startup_NoDup file w : startup file = Return w -> NoDup (dict_keys (stats w)).
Proof.
  unfold startup, load_stats. simpl. destruct file as [text|].
  - destruct (load_lines _ []) as [st|e] eqn:E; [| done].
    intros [= <-]. simpl. eapply load_lines_NoDup; [| exact E]. constructor.
  - intros [= <-]. constructor.
Qed.

Lemma ensure_player_stats_NoDup p w :
  NoDup (dict_keys (stats w)) ->
  NoDup (dict_keys (stats (ensure_player_stats p w).2)).
Proof.
  intros Hnd. run. destruct (dict_get (stats w) p); simpl; [done |].
  by apply dict_set_NoDup.
Qed.

Lemma handle_NoDup req w :
  NoDup (dict_keys (stats w)) -> NoDup (dict_keys (stats (handle req w).2)).
Proof.
  intros Hnd. destruct req as [| name | s i d p | gid x | p]; simpl;
    try done; unfold bind, ret.
  - assert (H : NoDup (dict_keys (stats (start_game s i d p w).2))).
    { destruct (choose_difficulty_from_number d) as [[nr ma]|e] eqn:E.
      - rewrite (start_game_valid s i d p w nr ma E).
        rewrite (create_game_valid s i d p w nr ma E).
        by apply ensure_player_stats_NoDup.
      - unfold start_game, create_game, bind, except_ValueError, lift, raise.
        rewrite E. by destruct e. }
    by destruct (start_game s i d p w) as [[r|e] w'].
  - assert (H : NoDup (dict_keys (stats (check_guess_endpoint gid x w).2))).
    { destruct (games w !! gid) as [g|] eqn:Hg.
      - rewrite (check_guess_endpoint_found gid x w g Hg).
        pose proof (apply_guess_way x g w) as Hway. simpl in Hway.
        destruct (apply_guess_to_game x (g, w)) as [r [g' w']]. simpl in *.
        destruct Hway; try done; by apply dict_set_NoDup.
      - by rewrite check_guess_endpoint_missing. }
    by destruct (check_guess_endpoint gid x w) as [[r|e] w'].
  - pose proof (get_player_stats_pure p w) as H.
    destruct (get_player_stats p w) as [[r|e] w']; simpl in *; by subst w'.
Qed.

Lemma serve_NoDup reqs : forall w,
  NoDup (dict_keys (stats w)) -> NoDup (dict_keys (stats (serve reqs w).2)).
Proof.
  induction reqs as [|req reqs IH]; intros w Hnd; simpl; [done |].
  by apply IH, handle_NoDup.
Qed.

(** C7 as stated fails.  The name " a" holds no ";", yet after saving and
    loading the ledger has a record for "a" and none for " a": [strip]
    took the space.  The name "a\nb" holds no ";" either, and loading the
    saved ledger raises [ValueError]: the record is spread over two
    lines. *)
Lemma ledger_round_trip_fails :
  (Forall (Forall (fun c => c <> SEMICOLON)) (dict_keys (stats spaced_world))
   /\ (load_stats (save_stats spaced_world).2).1
      = Return [(of_string "a", mkPlayerRecord 1 0)]
   /\ dict_get (stats spaced_world) (of_string " a")
      = Some (mkPlayerRecord 1 0)
   /\ dict_get [(of_string "a", mkPlayerRecord 1 0)] (of_string " a") = None)
  /\ (Forall (Forall (fun c => c <> SEMICOLON))
             (dict_keys (stats two_line_world))
      /\ (load_stats (save_stats two_line_world).2).1 = Raise (ValueError [])).
Proof.
  split; (split; [by repeat constructor |]); by vm_compute.
Qed.

(** C7, amended: for a ledger whose names are distinct and hold no ";",
    no line break ("\n", "\r") and no whitespace in front, saving it and
    loading the file back gives the same ledger: the same players in the
    same order with the same wins and losses, also after a restart. *)
Theorem ledger_round_trip (w : World) :
  NoDup (dict_keys (stats w)) ->
  Forall (fun name => safe_name name = true) (dict_keys (stats w)) ->
  load_stats (save_stats w).2 = (Return (stats w), (save_stats w).2)
  /\ startup (scores_txt (save_stats w).2)
     = Return (mkWorld ∅ (stats w) (Some (save_text (stats w))))
  /\ exists loaded,
       (load_stats (save_stats w).2).1 = Return loaded
       /\ forall name, dict_get loaded name = dict_get (stats w) name.
Proof.
  intros Hnd Hsafe.
  assert (Hload : load_stats (save_stats w).2
                  = (Return (stats w), (save_stats w).2)).
  { unfold load_stats, save_stats, modify. simpl.
    by rewrite load_saved. }
  split; [done |]. split; [| exists (stats w); by rewrite Hload].
  unfold startup, load_stats, save_stats, modify. simpl.
  by rewrite load_saved.
Qed.

Lemma ledger_round_trip_witness :
  NoDup (dict_keys (stats busy_world))
  /\ Forall (fun name => safe_name name = true) (dict_keys (stats busy_world))
  /\ load_stats (save_stats busy_world).2
     = (Return [(bob, mkPlayerRecord 2 1); (alice, mkPlayerRecord 0 4)],
        (save_stats busy_world).2).
Proof.
  assert (Hnd : NoDup (dict_keys (stats busy_world))).
  { simpl. apply NoDup_cons. split; [| apply NoDup_singleton].
    intros H. apply list_elem_of_singleton in H. discriminate. }
  assert (Hsafe : Forall (fun name => safe_name name = true)
                         (dict_keys (stats busy_world)))
    by (repeat constructor).
  split; [done |]. split; [done |].
  apply (ledger_round_trip busy_world Hnd Hsafe).
Defined.

(* ===================================================================== *)
(** ** Comparing a guess with the secret *)
(* ===================================================================== *)

(** X1: [check_guess] answers [too_high] exactly when the guess is above
    the secret, [too_low] exactly when it is below and [correct] exactly
    when they are equal; it never answers [win], [lose] or [game_over]. *)
Theorem check_guess_trichotomy (secret guess : Z) :
  (check_guess secret guess = too_high <-> secret < guess)
  /\ (check_guess secret guess = too_low <-> guess < secret)
  /\ (check_guess secret guess = correct <-> guess = secret)
  /\ check_guess secret guess <> win
  /\ check_guess secret guess <> lose
  /\ check_guess secret guess <> game_over.
Proof.
  unfold check_guess.
  destruct (Z.gtb_spec guess secret), (Z.ltb_spec guess secret);
    split_and!; (done || (split; (done || lia))).
Qed.

(* ===================================================================== *)
(** ** The ways a request goes *)
(* ===================================================================== *)

Lemma choose_difficulty_raise d e :
  choose_difficulty_from_number d = Raise e ->
  d <> 1 /\ d <> 2 /\ d <> 3
  /\ e = ValueError (of_string "Invalid difficulty").
Proof.
  unfold choose_difficulty_from_number.
  destruct (Z.eqb_spec d 1); [done |].
  destruct (Z.eqb_spec d 2); [done |].
  destruct (Z.eqb_spec d 3); [done |].
  by intros [= <-].
Qed.

Lemma start_game_cases s i d p w :
  (exists nr ma,
     choose_difficulty_from_number d = Return (nr, ma)
     /\ start_game s i d p w
        = (Return (mkStartGameResponse i nr ma),
           set_games (<[i := mkGame s nr ma 0 false p]> (games w))
                     (ensure_player_stats p w).2))
  \/ (d <> 1 /\ d <> 2 /\ d <> 3
      /\ start_game s i d p w
         = (Raise (HTTPException 400
                     (of_string "Invalid difficulty. Use 1, 2, or 3.")), w)).
Proof.
  destruct (choose_difficulty_from_number d) as [[nr ma]|e] eqn:E.
  - left. exists nr, ma. split; [done |].
    rewrite (start_game_valid s i d p w nr ma E).
    by apply create_game_valid.
  - right. destruct (choose_difficulty_raise d e E) as (? & ? & ? & ->).
    split_and!; try done. unfold start_game, except_ValueError.
    by rewrite (create_game_invalid s i d p w _ E).
Qed.

Lemma check_guess_endpoint_cases gid x w :
  (games w !! gid = None
   /\ check_guess_endpoint gid x w
      = (Raise (HTTPException 404 (of_string "Game not found")), w))
  \/ (exists g r g' w',
        games w !! gid = Some g /\ way x g w r g' w'
        /\ check_guess_endpoint gid x w
           = (r, set_games (<[gid := g']> (games w)) w')).
Proof.
  destruct (games w !! gid) as [g|] eqn:Hg.
  - right. rewrite (check_guess_endpoint_found gid x w g Hg).
    pose proof (apply_guess_way x g w) as Hway. simpl in Hway.
    destruct (apply_guess_to_game x (g, w)) as [r [g' w']]. simpl in *.
    exists g, r, g', w'. split_and!; try done.
    by destruct (way_frame _ _ _ _ _ _ Hway) as [-> _].
  - left. split; [done |]. by apply check_guess_endpoint_missing.
Qed.

Lemma get_player_stats_cases p w :
  (dict_get (stats w) p = None
   /\ get_player_stats p w
      = (Raise (HTTPException 404 (of_string "Player not found")), w))
  \/ (exists r, dict_get (stats w) p = Some r
        /\ get_player_stats p w
           = (Return (mkStatsResponse p (wins r) (losses r)), w)).
Proof.
  run. destruct (dict_get (stats w) p) as [r|] eqn:E; simpl.
  - right. by exists r.
  - by left.
Qed.

(** X2: a request that is answered with an HTTP error is one of four:
    400 for a difficulty other than 1, 2, 3; 404 for an unknown game id;
    400 for a guess out of range on a game that is not over; 404 for the
    stats of an unknown player.  Each of them is raised before anything
    is changed: the world is exactly as it was. *)
Theorem failed_request (req : request) (w : World) (status : Z)
    (detail : str) :
  (handle req w).1 = Raise (HTTPException status detail) ->
  (handle req w).2 = w
  /\ ((exists s i d p, req = PostStartGame s i d p
         /\ d <> 1 /\ d <> 2 /\ d <> 3
         /\ status = 400
         /\ detail = of_string "Invalid difficulty. Use 1, 2, or 3.")
      \/ (exists gid x, req = PostCheckGuess gid x
            /\ games w !! gid = None
            /\ status = 404 /\ detail = of_string "Game not found")
      \/ (exists gid x g, req = PostCheckGuess gid x
            /\ games w !! gid = Some g /\ is_over g = false
            /\ (x < 1 \/ number_range g < x)
            /\ status = 400
            /\ detail = of_string "Guess must be between 1 and "
                        ++ format_d (number_range g))
      \/ (exists p, req = GetStats p
            /\ dict_get (stats w) p = None
            /\ status = 404 /\ detail = of_string "Player not found")).
Proof.
  destruct req as [| name | s i d p | gid x | p]; simpl;
    unfold bind, ret; try done.
  - destruct (start_game_cases s i d p w)
      as [(nr & ma & _ & ->) | (H1 & H2 & H3 & ->)]; [done |].
    intros [= <- <-]. split; [done |]. left. by exists s, i, d, p.
  - destruct (check_guess_endpoint_cases gid x w)
      as [(Hg & ->) | (g & r & g' & w' & Hg & Hway & ->)].
    + intros [= <- <-]. split; [done |]. right. left. by exists gid, x.
    + destruct Hway as [| Hover Hout | | |]; try done.
      intros [= <- <-]. split; [by apply set_games_same |].
      right. right. left. exists gid, x, g. split_and!; try done.
      unfold in_range in Hout. lia.
  - destruct (get_player_stats_cases p w) as [(Hp & ->) | (r & _ & ->)];
      [| done].
    intros [= <- <-]. split; [done |]. right. right. right. by exists p.
Qed.

Lemma failed_request_witness :
  (handle (PostCheckGuess game2 0 ) busy_world).1
  = Raise (HTTPException 400 (of_string "Guess must be between 1 and 20"))
  /\ (handle (PostCheckGuess game2 0) busy_world).2 = busy_world.
Proof.
  assert (H : (handle (PostCheckGuess game2 0) busy_world).1
              = Raise (HTTPException 400
                         (of_string "Guess must be between 1 and 20"))).
  { simpl. unfold bind.
    rewrite (endpoint_invalid game2 0 busy_world alice_game); [done | | done |].
    - unfold busy_world. simpl. rewrite lookup_insert_ne by done.
      apply lookup_singleton_eq.
    - left. reflexivity. }
  split; [exact H |].
  exact (proj1 (failed_request (PostCheckGuess game2 0) busy_world _ _ H)).
Defined.

(* ===================================================================== *)
(** ** Starting a game *)
(* ===================================================================== *)

Lemma choose_difficulty_return d nr ma :
  choose_difficulty_from_number d = Return (nr, ma) ->
  (d = 1 /\ nr = 10 /\ ma = 5) \/ (d = 2 /\ nr = 20 /\ ma = 4)
  \/ (d = 3 /\ nr = 50 /\ ma = 3).
Proof.
  unfold choose_difficulty_from_number.
  destruct (Z.eqb_spec d 1); [intros [= <- <-]; auto |].
  destruct (Z.eqb_spec d 2); [intros [= <- <-]; auto |].
  destruct (Z.eqb_spec d 3); [intros [= <- <-]; auto 6 | done].
Qed.

Lemma ensure_player_stats_get p q w :
  dict_get (stats (ensure_player_stats p w).2) q
  = match dict_get (stats w) q with
    | Some r => Some r
    | None => if bool_decide (p = q) then Some zero_record else None
    end.
Proof.
  run. destruct (dict_get (stats w) p) as [r|] eqn:E; simpl.
  - destruct (dict_get (stats w) q) eqn:Eq; [done |].
    rewrite bool_decide_eq_false_2; [done | congruence].
  - case_bool_decide as Hpq.
    + subst q. by rewrite dict_get_set_eq, E.
    + rewrite dict_get_set_ne by done. by destruct (dict_get (stats w) q).
Qed.

Lemma ensure_player_stats_frame p w :
  games (ensure_player_stats p w).2 = games w
  /\ scores_txt (ensure_player_stats p w).2 = scores_txt w.
Proof. run. by destruct (dict_get (stats w) p). Qed.

Lemma wins_of_ensure p q w :
  wins_of q (ensure_player_stats p w).2 = wins_of q w
  /\ losses_of q (ensure_player_stats p w).2 = losses_of q w.
Proof.
  unfold wins_of, losses_of. rewrite ensure_player_stats_get.
  destruct (dict_get (stats w) q); [done |]. by case_bool_decide.
Qed.

(** X3: starting a game writes nothing to [scores.txt], leaves every
    other entry of the registry as it is, and changes no existing stats
    record: all it may add to the ledger is the zeroed record of the
    player, which is therefore not on file yet. *)
Theorem start_game_frame (s : Z) (i : str) (d : Z) (p : str) (w : World) :
  let w' := (start_game s i d p w).2 in
  scores_txt w' = scores_txt w
  /\ (forall gid, gid <> i -> games w' !! gid = games w !! gid)
  /\ (forall q r, dict_get (stats w) q = Some r ->
        dict_get (stats w') q = Some r)
  /\ (forall q, q <> p -> dict_get (stats w') q = dict_get (stats w) q).
Proof.
  simpl.
  destruct (start_game_cases s i d p w)
    as [(nr & ma & _ & ->) | (_ & _ & _ & ->)]; [| done].
  simpl. destruct (ensure_player_stats_frame p w) as [Hg Hf].
  split_and!.
  - done.
  - intros gid Hne. by rewrite lookup_insert_ne.
  - intros q r Hq. by rewrite ensure_player_stats_get, Hq.
  - intros q Hne. rewrite ensure_player_stats_get.
    destruct (dict_get (stats w) q); [done |].
    by rewrite bool_decide_eq_false_2.
Qed.

Lemma start_game_frame_witness :
  game2 <> game1
  /\ games (start_game 3 game1 2 carol busy_world).2 !! game2
     = Some alice_game
  /\ dict_get (stats busy_world) bob = Some (mkPlayerRecord 2 1)
  /\ dict_get (stats (start_game 3 game1 2 carol busy_world).2) bob
     = Some (mkPlayerRecord 2 1)
  /\ scores_txt (start_game 3 game1 2 carol busy_world).2 = None.
Proof.
  assert (Hne : game2 <> game1) by discriminate.
  assert (Hbob : dict_get (stats busy_world) bob = Some (mkPlayerRecord 2 1))
    by reflexivity.
  destruct (start_game_frame 3 game1 2 carol busy_world)
    as (Hfile & Hgames & Hstats & _).
  split; [done |]. split.
  - rewrite (Hgames game2 Hne). unfold busy_world. simpl.
    rewrite lookup_insert_ne by done. apply lookup_singleton_eq.
  - split; [done |]. split; [exact (Hstats bob _ Hbob) | exact Hfile].
Defined.

Lemma recorded_counters f p q w :
  wins_of q (recorded f p w)
  = (if bool_decide (q = p) then wins (f (default zero_record (dict_get (stats w) p)))
     else wins_of q w)
  /\ losses_of q (recorded f p w)
     = (if bool_decide (q = p)
        then losses (f (default zero_record (dict_get (stats w) p)))
        else losses_of q w).
Proof.
  unfold wins_of, losses_of. case_bool_decide as Hqp.
  - subst q. by rewrite recorded_get_same.
  - by rewrite recorded_get_other.
Qed.

(** X4: a game started with a valid difficulty, whose drawn secret lies in
    [1, number_range], is won by guessing the secret at once: the two
    requests are answered with the start response and with [win],
    max_attempts - 1 attempts left and the secret; the game is over, and
    the player has one more win and the same losses. *)
Theorem start_then_guess_secret (s : Z) (i : str) (d : Z) (p : str)
    (w : World) (nr ma : Z) :
  choose_difficulty_from_number d = Return (nr, ma) ->
  1 <= s <= nr ->
  let r := serve [PostStartGame s i d p; PostCheckGuess i s] w in
  r.1 = [Return (Started (mkStartGameResponse i nr ma));
         Return (Guessed (mkGuessResponse win (ma - 1) (Some s)))]
  /\ games r.2 !! i = Some (mkGame s nr ma 1 true p)
  /\ wins_of p r.2 = wins_of p w + 1
  /\ losses_of p r.2 = losses_of p w.
Proof.
  intros Hd Hs. simpl. unfold bind, ret.
  rewrite (start_game_valid s i d p w nr ma Hd).
  rewrite (create_game_valid s i d p w nr ma Hd). simpl.
  set (w1 := set_games _ _).
  assert (Hg : games w1 !! i = Some (mkGame s nr ma 0 false p))
    by apply lookup_insert_eq.
  rewrite (check_guess_endpoint_found i s w1 _ Hg).
  rewrite apply_guess_win by done. simpl.
  split_and!.
  - by replace (ma - (0 + 1)) with (ma - 1) by lia.
  - by rewrite lookup_insert_eq.
  - unfold wins_of. simpl. rewrite dict_get_set_eq. simpl.
    destruct (wins_of_ensure p p w) as [Hw _]. unfold wins_of in Hw.
    by rewrite Hw.
  - unfold losses_of. simpl. rewrite dict_get_set_eq. simpl.
    destruct (wins_of_ensure p p w) as [_ Hl]. unfold losses_of in Hl.
    by rewrite Hl.
Qed.

Lemma start_then_guess_secret_witness :
  choose_difficulty_from_number 3 = Return (50, 3)
  /\ 1 <= 42 <= 50
  /\ (serve [PostStartGame 42 game1 3 carol; PostCheckGuess game1 42]
            empty_world).1
     = [Return (Started (mkStartGameResponse game1 50 3));
        Return (Guessed (mkGuessResponse win 2 (Some 42)))].
Proof.
  assert (Hd : choose_difficulty_from_number 3 = Return (50, 3))
    by reflexivity.
  assert (Hs : 1 <= 42 <= 50) by lia.
  split; [done |]. split; [done |].
  exact (proj1 (start_then_guess_secret 42 game1 3 carol empty_world 50 3
                  Hd Hs)).
Defined.

(* ===================================================================== *)
(** ** Attempts stay within the budget *)
(* ===================================================================== *)

Lemma way_game_ok x g w r g' w' :
  way x g w r g' w' -> game_ok g ->
  game_ok g'
  /\ forall resp, r = Return resp ->
       0 <= attempts_left resp <= max_attempts g.
Proof.
  unfold game_ok.
  destruct 1 as [Hover | Hover Hout | Hover Hin Heq | Hover Hin Hne Hleft
                 | res Hover Hin Hne Hleft Hres];
    intros [Hused Hactive]; simpl.
  - split; [done |]. intros resp [= <-]. simpl. lia.
  - split; [done |]. by intros resp.
  - specialize (Hactive Hover). split; [split; [lia | done] |].
    intros resp [= <-]. simpl. lia.
  - specialize (Hactive Hover). split; [split; [lia | done] |].
    intros resp [= <-]. simpl. lia.
  - specialize (Hactive Hover). split; [split; [lia |]; intros _; lia |].
    intros resp [= <-]. simpl. lia.
Qed.

Lemma handle_registry_ok req w :
  registry_ok w ->
  registry_ok (handle req w).2
  /\ forall resp, (handle req w).1 = Return (Guessed resp) ->
       0 <= attempts_left resp.
Proof.
  intros Hok. destruct req as [| name | s i d p | gid x | p]; simpl;
    unfold bind, ret; try done.
  - destruct (start_game_cases s i d p w)
      as [(nr & ma & Hd & ->) | (_ & _ & _ & ->)]; [| done].
    split; [| done]. intros gid g. simpl.
    destruct (decide (i = gid)) as [-> | Hne].
    + rewrite lookup_insert_eq. intros [= <-]. unfold game_ok. simpl.
      apply choose_difficulty_return in Hd. lia.
    + rewrite lookup_insert_ne by done. apply Hok.
  - destruct (check_guess_endpoint_cases gid x w)
      as [(Hg & ->) | (g & r & g' & w' & Hg & Hway & ->)]; [done |].
    destruct (way_game_ok _ _ _ _ _ _ Hway (Hok gid g Hg)) as [Hg' Hresp].
    assert (Hreg : registry_ok (set_games (<[gid := g']> (games w)) w')).
    { intros gid0 g0. simpl.
      destruct (decide (gid = gid0)) as [-> | Hne].
      - rewrite lookup_insert_eq. by intros [= <-].
      - rewrite lookup_insert_ne by done. apply Hok. }
    destruct r as [resp'|e]; simpl; (split; [done |]); [| done].
    intros resp [= <-]. by apply (Hresp resp').
  - destruct (get_player_stats_cases p w) as [(_ & ->) | (r & _ & ->)];
      done.
Qed.

(** X5: if in every game of the registry attempts_used lies between 0 and
    max_attempts, and below max_attempts while the game is not over, then
    the same holds after any sequence of requests, and no guess response
    along the way reports a negative attempts_left.  The registry is
    empty at startup, so this holds in every run of the service. *)
Theorem attempts_within_budget (reqs : list request) (w : World) :
  registry_ok w ->
  registry_ok (serve reqs w).2
  /\ Forall (fun o => forall resp, o = Return (Guessed resp) ->
                        0 <= attempts_left resp)
            (serve reqs w).1.
Proof.
  revert w. induction reqs as [|req reqs IH]; intros w Hok; simpl.
  - split; [done | constructor].
  - destruct (handle_registry_ok req w Hok) as [Hok' Hresp].
    destruct (IH _ Hok') as [Hfinal Hall].
    split; [done |]. by constructor.
Qed.

Lemma attempts_within_budget_witness :
  registry_ok empty_world
  /\ registry_ok
       (serve [PostStartGame 7 game1 3 bob; PostCheckGuess game1 50;
               PostCheckGuess game1 1; PostCheckGuess game1 9;
               PostCheckGuess game1 7]
              empty_world).2.
Proof.
  assert (Hok : registry_ok empty_world).
  { intros gid g H. unfold empty_world in H. simpl in H.
    by rewrite lookup_empty in H. }
  split; [done |].
  exact (proj1 (attempts_within_budget
                  [PostStartGame 7 game1 3 bob; PostCheckGuess game1 50;
                   PostCheckGuess game1 1; PostCheckGuess game1 9;
                   PostCheckGuess game1 7]
                  empty_world Hok)).
Defined.

(* ===================================================================== *)
(** ** Games are kept, and a finished game stays as it is *)
(* ===================================================================== *)

Lemma game_advances_refl g : game_advances g g.
Proof. unfold game_advances. split_and!; (done || lia). Qed.

Lemma game_advances_trans g1 g2 g3 :
  game_advances g1 g2 -> game_advances g2 g3 -> game_advances g1 g3.
Proof.
  intros (Hs & Hr & Hm & Hp & Hu & Ho) (Hs' & Hr' & Hm' & Hp' & Hu' & Ho').
  unfold game_advances. split_and!; try congruence; try lia.
  intros Hover. specialize (Ho Hover). subst g2. by apply Ho'.
Qed.

Lemma way_advances x g w r g' w' : way x g w r g' w' -> game_advances g g'.
Proof.
  destruct 1; unfold game_advances; simpl; split_and!;
    try done; try lia; congruence.
Qed.

Lemma handle_keeps_games req w gid g :
  games w !! gid = Some g ->
  is_Some (games (handle req w).2 !! gid)
  /\ (~ draws_id gid req ->
      exists g', games (handle req w).2 !! gid = Some g'
                 /\ game_advances g g').
Proof.
  intros Hg.
  assert (Hsame : is_Some (games w !! gid)
                  /\ (exists g', games w !! gid = Some g'
                                 /\ game_advances g g')).
  { split; [by exists g |]. exists g. split; [done | apply game_advances_refl]. }
  destruct req as [| name | s i d p | gid0 x | p]; simpl;
    unfold bind, ret; try (split; [apply Hsame | intros _; apply Hsame]).
  - destruct (start_game_cases s i d p w)
      as [(nr & ma & Hd & ->) | (_ & _ & _ & ->)];
      [| split; [apply Hsame | intros _; apply Hsame]].
    simpl. destruct (decide (i = gid)) as [-> | Hne].
    + rewrite lookup_insert_eq. split; [by eexists | done].
    + rewrite lookup_insert_ne by done.
      split; [apply Hsame | intros _; apply Hsame].
  - destruct (check_guess_endpoint_cases gid0 x w)
      as [(_ & ->) | (g0 & r & g' & w' & Hg0 & Hway & ->)];
      [split; [apply Hsame | intros _; apply Hsame] |].
    assert (Hgoal : exists g'',
               <[gid0 := g']> (games w) !! gid = Some g''
               /\ game_advances g g'').
    { destruct (decide (gid0 = gid)) as [-> | Hne].
      - rewrite lookup_insert_eq. exists g'. split; [done |].
        rewrite Hg in Hg0. injection Hg0 as <-. by eapply way_advances.
      - rewrite lookup_insert_ne by done. apply Hsame. }
    destruct r; simpl;
      (split; [destruct Hgoal as (g'' & -> & _); by eexists | by intros _]).
  - destruct (get_player_stats_cases p w) as [(_ & ->) | (r & _ & ->)];
      simpl; (split; [apply Hsame | intros _; apply Hsame]).
Qed.

(** X6: no request removes a game: an id of the registry stays in it
    after any sequence of requests.  If moreover none of the requests
    draws that id again for a new game, the game found under it later has
    the same secret, range, budget and owner, at least as many attempts
    used, and is the very same game if it was already over: a finished
    game is never reopened. *)
Theorem games_persist (reqs : list request) (w : World) (gid : str)
    (g : Game) :
  games w !! gid = Some g ->
  is_Some (games (serve reqs w).2 !! gid)
  /\ (Forall (fun req => ~ draws_id gid req) reqs ->
      exists g', games (serve reqs w).2 !! gid = Some g'
        /\ secret_number g' = secret_number g
        /\ number_range g' = number_range g
        /\ max_attempts g' = max_attempts g
        /\ player_name g' = player_name g
        /\ attempts_used g <= attempts_used g'
        /\ (is_over g = true -> g' = g)).
Proof.
  revert w g. induction reqs as [|req reqs IH]; intros w g Hg; simpl.
  - split; [by exists g |]. intros _. exists g.
    split; [done |]. apply game_advances_refl.
  - destruct (handle_keeps_games req w gid g Hg) as [[g1 Hg1] Hadv].
    destruct (IH _ g1 Hg1) as [Hsome _]. split; [done |].
    intros Hall. apply Forall_cons in Hall as [Hreq Hreqs].
    destruct (Hadv Hreq) as (g1' & Hg1' & Hadv1).
    destruct (IH _ g1' Hg1') as [_ Hlater].
    destruct (Hlater Hreqs) as (g' & Hg' & Hadv').
    exists g'. split; [done |].
    by apply (game_advances_trans g g1' g').
Qed.

Lemma games_persist_witness :
  games won_world !! game1 = Some won_game
  /\ Forall (fun req => ~ draws_id game1 req)
            [PostCheckGuess game1 7; PostStartGame 5 game2 1 bob;
             PostCheckGuess game1 0]
  /\ is_over won_game = true
  /\ games (serve [PostCheckGuess game1 7; PostStartGame 5 game2 1 bob;
                   PostCheckGuess game1 0] won_world).2 !! game1
     = Some won_game.
Proof.
  assert (Hg : games won_world !! game1 = Some won_game)
    by apply lookup_singleton_eq.
  assert (Hall : Forall (fun req => ~ draws_id game1 req)
                   [PostCheckGuess game1 7; PostStartGame 5 game2 1 bob;
                    PostCheckGuess game1 0]).
  { repeat constructor; simpl; try tauto. discriminate. }
  split; [done |]. split; [done |]. split; [reflexivity |].
  destruct (games_persist
              [PostCheckGuess game1 7; PostStartGame 5 game2 1 bob;
               PostCheckGuess game1 0] won_world game1 won_game Hg)
    as [_ Hlater].
  destruct (Hlater Hall) as (g' & Hg' & _ & _ & _ & _ & _ & Hsame).
  rewrite Hg'. f_equal. by apply Hsame.
Defined.

(* ===================================================================== *)
(** ** One result per game *)
(* ===================================================================== *)

Lemma count_result_over res (guesses : list Z) g :
  Result_eqb game_over res = false ->
  count_result res (List.map (fun _ => Return (over_response g)) guesses) = 0.
Proof.
  intros Hres. induction guesses as [|x guesses IH]; simpl; [done |].
  destruct res; (discriminate || lia).
Qed.

Lemma play_counts guesses : forall g w,
  let r := play guesses (g, w) in
  count_result win r.1 + count_result lose r.1
  = (if is_over g then 0 else if is_over r.2.1 then 1 else 0)
  /\ wins_of (player_name g) r.2.2
     = wins_of (player_name g) w + count_result win r.1
  /\ losses_of (player_name g) r.2.2
     = losses_of (player_name g) w + count_result lose r.1
  /\ forall q, q <> player_name g ->
       wins_of q r.2.2 = wins_of q w /\ losses_of q r.2.2 = losses_of q w.
Proof.
  induction guesses as [|x guesses IH]; intros g w; simpl.
  - split_and!; try lia; try done. by destruct (is_over g).
  - pose proof (apply_guess_way x g w) as Hway. simpl in Hway.
    destruct (apply_guess_to_game x (g, w)) as [r [g' w']]. simpl in *.
    destruct Hway as [Hover | Hover Hout | Hover Hin Heq | Hover Hin Hne Hleft
                      | res Hover Hin Hne Hleft Hres].
    + rewrite play_over by done. simpl.
      rewrite !count_result_over by done. rewrite Hover.
      split_and!; try lia; try done.
    + specialize (IH g w). simpl in IH. rewrite Hover in *. exact IH.
    + rewrite play_over by done. simpl.
      rewrite !count_result_over by done. rewrite Hover.
      destruct (recorded_counters add_win (player_name g) (player_name g) w)
        as [Hw Hl].
      rewrite bool_decide_eq_true_2 in Hw, Hl by done. simpl in Hw, Hl.
      split_and!; try lia.
      * rewrite Hw. unfold wins_of. lia.
      * rewrite Hl. unfold losses_of. lia.
      * intros q Hq.
        destruct (recorded_counters add_win (player_name g) q w) as [Hw' Hl'].
        by rewrite bool_decide_eq_false_2 in Hw', Hl' by done.
    + rewrite play_over by done. simpl.
      rewrite !count_result_over by done. rewrite Hover.
      destruct (recorded_counters add_loss (player_name g) (player_name g) w)
        as [Hw Hl].
      rewrite bool_decide_eq_true_2 in Hw, Hl by done. simpl in Hw, Hl.
      split_and!; try lia.
      * rewrite Hw. unfold wins_of. lia.
      * rewrite Hl. unfold losses_of. lia.
      * intros q Hq.
        destruct (recorded_counters add_loss (player_name g) q w)
          as [Hw' Hl'].
        by rewrite bool_decide_eq_false_2 in Hw', Hl' by done.
    + specialize (IH (counted g) w). simpl in IH. rewrite Hover in *.
      destruct IH as (Hsum & Hw & Hl & Hq).
      destruct Hres as [-> | ->]; simpl; split_and!; try lia; done.
Qed.

(** X7: however many guesses one game dict receives, in range or not, a
    response with [win] or [lose] comes at most once; the owner's wins go
    up by the number of [win] responses and the losses by the number of
    [lose] responses, and no other player's counters move. *)
Theorem results_recorded_once (guesses : list Z) (g : Game) (w : World) :
  let r := play guesses (g, w) in
  0 <= count_result win r.1 + count_result lose r.1 <= 1
  /\ wins_of (player_name g) r.2.2
     = wins_of (player_name g) w + count_result win r.1
  /\ losses_of (player_name g) r.2.2
     = losses_of (player_name g) w + count_result lose r.1
  /\ forall q, q <> player_name g ->
       wins_of q r.2.2 = wins_of q w /\ losses_of q r.2.2 = losses_of q w.
Proof.
  simpl. destruct (play_counts guesses g w) as (Hsum & Hw & Hl & Hq).
  split; [| by split_and!].
  rewrite Hsum. destruct (is_over g); [lia |].
  destruct (is_over _); lia.
Qed.

Lemma results_recorded_once_witness :
  alice <> player_name bob_game
  /\ wins_of alice (play [7; 7; 7] (bob_game, busy_world)).2.2
     = wins_of alice busy_world
  /\ wins_of bob (play [7; 7; 7] (bob_game, busy_world)).2.2 = 3.
Proof.
  assert (Hne : alice <> player_name bob_game) by discriminate.
  destruct (results_recorded_once [7; 7; 7] bob_game busy_world)
    as (_ & Hw & _ & Hq).
  split; [done |]. split; [exact (proj1 (Hq alice Hne)) |].
  exact Hw.
Defined.

Lemma play_ends guesses : forall g w,
  game_ok g ->
  Forall (in_range g) guesses ->
  max_attempts g - attempts_used g <= Z.of_nat (length guesses) ->
  is_over (play guesses (g, w)).2.1 = true.
Proof.
  induction guesses as [|x guesses IH]; intros g w Hok Hall Hlen.
  - simpl in *. destruct Hok as [_ Hactive].
    destruct (is_over g); [done |]. specialize (Hactive eq_refl). lia.
  - apply Forall_cons in Hall as [Hx Hrest].
    rewrite length_cons, Nat2Z.inj_succ in Hlen. simpl.
    pose proof (apply_guess_way x g w) as Hway. simpl in Hway.
    destruct (way_game_ok _ _ _ _ _ _ Hway Hok) as [Hok' _].
    destruct (apply_guess_to_game x (g, w)) as [r [g' w']]. simpl in *.
    destruct Hway as [Hover | Hover Hout | Hover Hin Heq | Hover Hin Hne Hleft
                      | res Hover Hin Hne Hleft Hres].
    + by rewrite play_over.
    + done.
    + by rewrite play_over.
    + by rewrite play_over.
    + apply IH; [done | done | simpl; lia].
Qed.

(** X8: a game cannot be dragged on.  On a game whose attempts are within
    its budget, any run of guesses in range that is at least as long as
    the attempts left ends with the game over, whatever the guesses are;
    and if the game was not over before, exactly one of the responses is
    [win] or [lose]. *)
Theorem game_ends (guesses : list Z) (g : Game) (w : World) :
  game_ok g ->
  Forall (fun x => 1 <= x <= number_range g) guesses ->
  max_attempts g - attempts_used g <= Z.of_nat (length guesses) ->
  let r := play guesses (g, w) in
  is_over r.2.1 = true
  /\ (is_over g = false ->
      count_result win r.1 + count_result lose r.1 = 1).
Proof.
  intros Hok Hall Hlen. simpl.
  pose proof (play_ends guesses g w Hok Hall Hlen) as Hend.
  split; [done |]. intros Hactive.
  destruct (play_counts guesses g w) as (Hsum & _).
  simpl in Hsum. by rewrite Hactive, Hend in Hsum.
Qed.

Lemma game_ends_witness :
  game_ok alice_game
  /\ Forall (fun x => 1 <= x <= number_range alice_game) [20]
  /\ max_attempts alice_game - attempts_used alice_game <= 1
  /\ is_over (play [20] (alice_game, busy_world)).2.1 = true.
Proof.
  assert (Hok : game_ok alice_game) by (unfold game_ok; simpl; lia).
  assert (Hall : Forall (fun x => 1 <= x <= number_range alice_game) [20])
    by (repeat constructor; simpl; lia).
  assert (Hlen : max_attempts alice_game - attempts_used alice_game <= 1)
    by (simpl; lia).
  split; [done |]. split; [done |]. split; [done |].
  exact (proj1 (game_ends [20] alice_game busy_world Hok Hall Hlen)).
Defined.

(* ===================================================================== *)
(** ** Reading a ledger file line by line *)
(* ===================================================================== *)

Lemma lstrip_blank s : blank s -> lstrip s = [].
Proof.
  induction s as [|c s IH]; intros Hb; [done |].
  apply Forall_cons in Hb as [Hc Hs]. simpl. rewrite Hc. by apply IH.
Qed.

Lemma strip_blank s : blank s -> strip s = [].
Proof. intros Hb. unfold strip. by rewrite lstrip_blank. Qed.

(** Loading goes through the lines in order and stops at the first line
    that raises. *)
Lemma load_lines_app l1 l2 : forall data,
  load_lines (l1 ++ l2) data
  = match load_lines l1 data with
    | Return d => load_lines l2 d
    | Raise e => Raise e
    end.
Proof.
  induction l1 as [|line l1 IH]; intros data; [done |].
  rewrite <- app_comm_cons. cbn [load_lines].
  destruct (strip line) as [|c s]; [apply IH |].
  destruct (split SEMICOLON (c :: s)) as [|f1 [|f2 [|f3 [|f4 fs]]]];
    try done.
  destruct (int f2); [| done]. destruct (int f3); [| done]. apply IH.
Qed.

Lemma load_lines_raise lines : forall data e,
  load_lines lines data = Raise e -> e = ValueError [].
Proof.
  induction lines as [|line lines IH]; intros data e; [done |].
  cbn [load_lines].
  destruct (strip line) as [|c s]; [apply IH |].
  destruct (split SEMICOLON (c :: s)) as [|f1 [|f2 [|f3 [|f4 fs]]]];
    try (by intros [= <-]).
  destruct (int f2); [| by intros [= <-]].
  destruct (int f3); [| by intros [= <-]]. apply IH.
Qed.

Lemma split_length sep s :
  length (split sep s) = S (count_occ N.eq_dec s sep).
Proof.
  induction s as [|c s IH]; simpl; [done |].
  destruct (N.eqb_spec c sep) as [-> | Hne].
  - destruct (N.eq_dec sep sep); [| done]. simpl. by rewrite IH.
  - destruct (N.eq_dec c sep); [done |].
    destruct (split sep s) as [|field fields]; simpl in *; [done | done].
Qed.

(** X9: [load_stats] skips every line that is empty or holds only
    whitespace, wherever it stands: the ledger read is the one read
    without that line. *)
Theorem blank_lines_ignored (l1 l2 : list str) (line : str)
    (data : dict PlayerRecord) :
  blank line ->
  load_lines (l1 ++ line :: l2) data = load_lines (l1 ++ l2) data.
Proof.
  intros Hb. rewrite !load_lines_app.
  destruct (load_lines l1 data) as [d|e]; [| done].
  simpl. by rewrite strip_blank.
Qed.

Lemma blank_lines_ignored_witness :
  blank (of_string "  " ++ [LF])
  /\ load_lines (readlines hand_written) []
     = load_lines [of_string "bob;1;0" ++ [LF];
                   of_string "alice;0;4" ++ [LF];
                   of_string "bob;5;2" ++ [LF]] [].
Proof.
  assert (Hb : blank (of_string "  " ++ [LF])) by (by repeat constructor).
  split; [done |].
  exact (blank_lines_ignored [of_string "bob;1;0" ++ [LF]]
           [of_string "alice;0;4" ++ [LF]; of_string "bob;5;2" ++ [LF]]
           _ [] Hb).
Defined.

Lemma load_malformed line rest data :
  strip line <> [] -> malformed line ->
  load_lines (line :: rest) data = Raise (ValueError []).
Proof.
  intros Hne Hbad. cbn [load_lines]. unfold malformed in Hbad.
  destruct (strip line) as [|c s] eqn:Es; [done |].
  destruct Hbad as [Hcount | (name & ws & ls & Hsplit & Hint)].
  - pose proof (split_length SEMICOLON (c :: s)) as Hlen.
    destruct (split SEMICOLON (c :: s)) as [|f1 [|f2 [|f3 [|f4 fs]]]];
      try done.
    cbn [length] in Hlen. lia.
  - rewrite Hsplit. destruct Hint as [-> | Hl]; [done |].
    rewrite Hl. by destruct (int ws).
Qed.

(** X10: one malformed line makes the whole load fail.  If some line,
    once stripped, is not empty and either does not have exactly two ";"
    or has a number field that [int] rejects, then [load_stats] raises
    [ValueError], whatever the other lines hold; so the service does not
    start from such a file. *)
Theorem malformed_line_fails (l1 l2 : list str) (line : str)
    (data : dict PlayerRecord) :
  strip line <> [] -> malformed line ->
  load_lines (l1 ++ line :: l2) data = Raise (ValueError []).
Proof.
  intros Hne Hbad. rewrite load_lines_app.
  destruct (load_lines l1 data) as [d|e] eqn:E.
  - by apply load_malformed.
  - by rewrite (load_lines_raise l1 data e E).
Qed.

Lemma malformed_line_fails_witness :
  strip (of_string "carol;3" ++ [LF]) <> []
  /\ malformed (of_string "carol;3" ++ [LF])
  /\ startup (Some (of_string "bob;1;0" ++ [LF] ++ of_string "carol;3"
                    ++ [LF] ++ of_string "alice;0;4" ++ [LF]))
     = Raise (ValueError []).
Proof.
  assert (Hne : strip (of_string "carol;3" ++ [LF]) <> []) by done.
  assert (Hbad : malformed (of_string "carol;3" ++ [LF]))
    by (left; vm_compute; lia).
  split; [done |]. split; [done |].
  unfold startup, load_stats. simpl scores_txt. cbv beta iota.
  change (readlines _)
    with ([of_string "bob;1;0" ++ [LF]]
          ++ (of_string "carol;3" ++ [LF])
          :: [of_string "alice;0;4" ++ [LF]]).
  by rewrite (malformed_line_fails _ _ _ [] Hne Hbad).
Defined.

(* ===================================================================== *)
(** ** A name listed twice *)
(* ===================================================================== *)

Lemma dict_get_app {V} (d1 d2 : dict V) k :
  dict_get (d1 ++ d2) k
  = match dict_get d1 k with
    | Some v => Some v
    | None => dict_get d2 k
    end.
Proof.
  induction d1 as [|[k' v'] d1 IH]; simpl; [done |].
  by case_bool_decide.
Qed.

Lemma dict_get_fold {V} (items : list (str * V)) : forall (data : dict V) k,
  dict_get (fold_left (fun d item => dict_set d item.1 item.2) items data) k
  = match dict_get (rev items) k with
    | Some v => Some v
    | None => dict_get data k
    end.
Proof.
  induction items as [|[k0 v0] items IH]; intros data k; simpl; [done |].
  rewrite IH, dict_get_app. destruct (dict_get (rev items) k); [done |].
  simpl. case_bool_decide as Hk.
  - subst k0. apply dict_get_set_eq.
  - by apply dict_get_set_ne.
Qed.

Lemma fold_dict_set_NoDup {V} (items : list (str * V)) : forall data : dict V,
  NoDup (dict_keys data) ->
  NoDup (dict_keys
           (fold_left (fun d item => dict_set d item.1 item.2) items data)).
Proof.
  induction items as [|item items IH]; intros data Hnd; simpl; [done |].
  by apply IH, dict_set_NoDup.
Qed.

(** X11: when a file lists a name on several lines, the last line wins.
    For any sequence of records with safe names, written one per line,
    [load_stats] returns a ledger with distinct names in which every name
    has the counts of its last line. *)
Theorem later_line_wins (items : list (str * PlayerRecord)) (w : World) :
  Forall (fun name => safe_name name = true) (dict_keys items) ->
  exists st,
    load_stats (set_scores_txt (Some (save_text items)) w)
    = (Return st, set_scores_txt (Some (save_text items)) w)
    /\ NoDup (dict_keys st)
    /\ forall name, dict_get st name = dict_get (rev items) name.
Proof.
  intros Hsafe. eexists. unfold load_stats. simpl.
  rewrite universal_newlines_id by by apply save_text_no_CR.
  rewrite readlines_save, load_records by done.
  split; [done |]. split.
  - apply fold_dict_set_NoDup. constructor.
  - intros name. rewrite dict_get_fold.
    by destruct (dict_get (rev items) name).
Qed.

Lemma later_line_wins_witness :
  Forall (fun name => safe_name name = true)
         (dict_keys [(bob, mkPlayerRecord 1 0); (alice, mkPlayerRecord 0 4);
                     (bob, mkPlayerRecord 5 2)])
  /\ exists st,
       load_stats (set_scores_txt
                     (Some (save_text [(bob, mkPlayerRecord 1 0);
                                       (alice, mkPlayerRecord 0 4);
                                       (bob, mkPlayerRecord 5 2)]))
                     empty_world)
       = (Return st,
          set_scores_txt
            (Some (save_text [(bob, mkPlayerRecord 1 0);
                              (alice, mkPlayerRecord 0 4);
                              (bob, mkPlayerRecord 5 2)]))
            empty_world)
       /\ dict_get st bob = Some (mkPlayerRecord 5 2).
Proof.
  assert (Hsafe : Forall (fun name => safe_name name = true)
                    (dict_keys [(bob, mkPlayerRecord 1 0);
                                (alice, mkPlayerRecord 0 4);
                                (bob, mkPlayerRecord 5 2)]))
    by (by repeat constructor).
  split; [done |].
  destruct (later_line_wins _ empty_world Hsafe) as (st & Hload & _ & Hget).
  exists st. split; [exact Hload |]. by rewrite Hget.
Defined.

(** X12: the file [save_stats] writes has exactly one line per player of
    the ledger, in the ledger's order, each of the form
    name;wins;losses followed by "\n", provided the names are safe. *)
Theorem saved_file_lines (w : World) :
  Forall (fun name => safe_name name = true) (dict_keys (stats w)) ->
  exists text,
    scores_txt (save_stats w).2 = Some text
    /\ readlines text
       = List.map (fun item =>
                     item.1 ++ [SEMICOLON] ++ format_d (wins item.2)
                     ++ [SEMICOLON] ++ format_d (losses item.2) ++ [LF])
                  (stats w)
    /\ length (readlines text) = length (stats w).
Proof.
  intros Hsafe. exists (save_text (stats w)). split; [done |].
  rewrite readlines_save by done. split; [done |].
  apply length_map.
Qed.

Lemma saved_file_lines_witness :
  Forall (fun name => safe_name name = true) (dict_keys (stats busy_world))
  /\ exists text,
       scores_txt (save_stats busy_world).2 = Some text
       /\ length (readlines text) = 2%nat.
Proof.
  assert (Hsafe : Forall (fun name => safe_name name = true)
                    (dict_keys (stats busy_world)))
    by (by repeat constructor).
  split; [done |].
  destruct (saved_file_lines busy_world Hsafe) as (text & Hfile & _ & Hlen).
  exists text. split; [exact Hfile | exact Hlen].
Defined.

(* ===================================================================== *)
(** ** The names a file can give *)
(* ===================================================================== *)

Lemma universal_newlines_no_CR s :
  Forall (fun c => c <> CR) (universal_newlines s).
Proof.
  assert (H : Forall (fun c => c <> CR) (universal_newlines s)
              /\ forall c, Forall (fun c => c <> CR)
                             (universal_newlines (c :: s))).
  { induction s as [|c' s [IH1 IH2]].
    - split; [constructor |]. intros c. simpl.
      destruct (N.eqb_spec c CR); by repeat constructor.
    - split; [apply IH2 |]. intros c. cbn [universal_newlines].
      destruct (N.eqb_spec c CR).
      + destruct (c' =? LF)%N; constructor; (done || apply IH2).
      + constructor; [done | apply IH2]. }
  apply H.
Qed.

Lemma readlines_line_ok s :
  Forall (fun c => c <> CR) s -> Forall line_ok (readlines s).
Proof.
  induction s as [|c s IH]; intros Hall; [constructor |].
  apply Forall_cons in Hall as [Hc Hs]. specialize (IH Hs). simpl.
  destruct (N.eqb_spec c LF) as [-> | Hne].
  - constructor; [| done]. split; [by repeat constructor |].
    exists []. split; [constructor | by left].
  - destruct (readlines s) as [|line lines].
    + repeat constructor; [done |].
      exists [c]. split; [by repeat constructor | by right].
    + apply Forall_cons in IH as [[Hcr (body & Hbody & Hline)] Hlines].
      constructor; [| done]. split; [by constructor |].
      exists (c :: body). split; [by constructor |].
      destruct Hline as [-> | ->]; [by left | by right].
Qed.

Lemma lstrip_chars (P : N -> Prop) s : Forall P s -> Forall P (lstrip s).
Proof.
  induction s as [|c s IH]; intros Hall; [done |].
  simpl. destruct (isspace c); [| done].
  apply Forall_cons in Hall as [_ Hs]. by apply IH.
Qed.

Lemma strip_chars (P : N -> Prop) s : Forall P s -> Forall P (strip s).
Proof.
  intros Hall. unfold strip, rstrip.
  by apply Forall_rev, lstrip_chars, Forall_rev, lstrip_chars.
Qed.

Lemma lstrip_head s c t : lstrip s = c :: t -> isspace c = false.
Proof.
  induction s as [|c' s IH]; simpl; [done |].
  destruct (isspace c') eqn:E; [done |]. by intros [= <- _].
Qed.

Lemma lstrip_split s : exists ws, s = ws ++ lstrip s.
Proof.
  induction s as [|c s [ws IH]]; [by exists [] |].
  simpl. destruct (isspace c).
  - exists (c :: ws). simpl. by rewrite <- IH.
  - by exists [].
Qed.

Lemma rstrip_split t : exists ws, t = rstrip t ++ ws.
Proof.
  destruct (lstrip_split (rev t)) as [ws Hws].
  exists (rev ws). unfold rstrip.
  by rewrite <- rev_app_distr, <- Hws, rev_involutive.
Qed.

Lemma strip_head s c t : strip s = c :: t -> isspace c = false.
Proof.
  unfold strip. intros Hs.
  destruct (rstrip_split (lstrip s)) as [ws Hws]. rewrite Hs in Hws.
  by apply (lstrip_head s c (t ++ ws)).
Qed.

Lemma lstrip_app s t :
  lstrip (s ++ t)
  = match lstrip s with
    | [] => lstrip t
    | _ => lstrip s ++ t
    end.
Proof.
  induction s as [|c s IH]; simpl.
  - by destruct (lstrip t).
  - by destruct (isspace c).
Qed.

Lemma strip_snoc_space s c : isspace c = true -> strip (s ++ [c]) = strip s.
Proof.
  intros Hc. unfold strip. rewrite lstrip_app.
  destruct (lstrip s) as [|c' u] eqn:E.
  - simpl. by rewrite Hc.
  - unfold rstrip. rewrite rev_app_distr. simpl rev at 2.
    cbn [app lstrip]. by rewrite Hc.
Qed.

Lemma split_chars (P : N -> Prop) sep s :
  Forall P s -> Forall (Forall P) (split sep s).
Proof.
  induction s as [|c s IH]; intros Hall; [by repeat constructor |].
  apply Forall_cons in Hall as [Hc Hs]. specialize (IH Hs). simpl.
  destruct (c =? sep)%N; [by constructor |].
  destruct (split sep s) as [|field fields]; [by repeat constructor |].
  apply Forall_cons in IH as [Hf Hfs]. by repeat constructor.
Qed.

Lemma split_no_sep sep s :
  Forall (Forall (fun c => c <> sep)) (split sep s).
Proof.
  induction s as [|c s IH]; [by repeat constructor |]. simpl.
  destruct (N.eqb_spec c sep); [by constructor |].
  destruct (split sep s) as [|field fields]; [by repeat constructor |].
  apply Forall_cons in IH as [Hf Hfs]. by repeat constructor.
Qed.

Lemma split_head sep c s field fields :
  split sep (c :: s) = field :: fields ->
  field = [] \/ exists rest, field = c :: rest.
Proof.
  simpl. destruct (c =? sep)%N; [intros [= <- _]; by left |].
  destruct (split sep s); intros [= <- _]; right; by eexists.
Qed.

(** The first field of a stripped line is always a safe name. *)
Lemma first_field_safe line name fields :
  line_ok line ->
  split SEMICOLON (strip line) = name :: fields ->
  safe_name name = true.
Proof.
  intros [Hcr (body & Hbody & Hline)] Hsplit.
  assert (Hlf : Forall (fun c => c <> LF) (strip line)).
  { destruct Hline as [-> | ->].
    - rewrite strip_snoc_space by done. by apply strip_chars.
    - by apply strip_chars. }
  pose proof (strip_chars _ _ Hcr) as Hcr'.
  pose proof (split_chars _ SEMICOLON _ Hlf) as H1.
  pose proof (split_chars _ SEMICOLON _ Hcr') as H2.
  pose proof (split_no_sep SEMICOLON (strip line)) as H3.
  rewrite Hsplit in H1, H2, H3.
  apply Forall_cons in H1 as [H1 _]. apply Forall_cons in H2 as [H2 _].
  apply Forall_cons in H3 as [H3 _].
  unfold safe_name. apply andb_true_iff. split.
  - apply forallb_forall. intros c Hc. unfold safe_char.
    rewrite List.Forall_forall in H1, H2, H3.
    specialize (H1 c Hc). specialize (H2 c Hc). specialize (H3 c Hc).
    rewrite !andb_true_iff, !negb_true_iff, !N.eqb_neq. done.
  - destruct name as [|c name]; [done |].
    destruct (strip line) as [|c' t] eqn:Es; [by inversion Hsplit |].
    destruct (split_head _ _ _ _ _ Hsplit) as [? | [rest [= <- _]]];
      [done |].
    apply negb_true_iff. by apply (strip_head line c t).
Qed.

Lemma dict_keys_set_cases {V} (d : dict V) k v :
  dict_keys (dict_set d k v) = dict_keys d
  \/ dict_keys (dict_set d k v) = dict_keys d ++ [k].
Proof.
  destruct (decide (k ∈ dict_keys d)) as [Hin | Hnin].
  - left. by apply dict_keys_set_present.
  - right. rewrite dict_set_fresh by done. unfold dict_keys.
    by rewrite List.map_app.
Qed.

Lemma dict_set_safe {V} (d : dict V) k v :
  Forall (fun name => safe_name name = true) (dict_keys d) ->
  safe_name k = true ->
  Forall (fun name => safe_name name = true) (dict_keys (dict_set d k v)).
Proof.
  intros Hd Hk. destruct (dict_keys_set_cases d k v) as [-> | ->]; [done |].
  apply Forall_app. split; [done | by repeat constructor].
Qed.

Lemma load_lines_safe lines : forall data st,
  Forall line_ok lines ->
  Forall (fun name => safe_name name = true) (dict_keys data) ->
  load_lines lines data = Return st ->
  Forall (fun name => safe_name name = true) (dict_keys st).
Proof.
  induction lines as [|line lines IH]; intros data st Hlines Hdata.
  - by intros [= <-].
  - apply Forall_cons in Hlines as [Hline Hlines]. cbn [load_lines].
    pose proof (first_field_safe line) as Hfirst.
    destruct (strip line) as [|c s]; [by apply IH |].
    destruct (split SEMICOLON (c :: s)) as [|f1 [|f2 [|f3 [|f4 fs]]]];
      try done.
    destruct (int f2); [| done]. destruct (int f3); [| done].
    apply IH; [done |]. apply dict_set_safe; [done |].
    by apply (Hfirst f1 [f2; f3]).
Qed.

Lemma loaded_ledger_ok text st :
  load_lines (readlines (universal_newlines text)) [] = Return st ->
  ledger_ok st.
Proof.
  intros Hload. split.
  - eapply load_lines_NoDup; [| exact Hload]. constructor.
  - eapply load_lines_safe; [| | exact Hload]; [| constructor].
    apply readlines_line_ok, universal_newlines_no_CR.
Qed.

(** X13: whatever file the service starts from, the ledger it loads has
    distinct names that the file format can hold (no ";", no line break,
    no whitespace in front), so saving that ledger and starting again
    gives exactly the same ledger.  Blank lines, repeated names and signs
    or underscores in the numbers of a hand-written file are gone after
    the first save, and nothing else changes. *)
Theorem loaded_ledger_is_stable (file : option str) (w : World) :
  startup file = Return w ->
  NoDup (dict_keys (stats w))
  /\ Forall (fun name => safe_name name = true) (dict_keys (stats w))
  /\ startup (scores_txt (save_stats w).2)
     = Return (mkWorld ∅ (stats w) (Some (save_text (stats w)))).
Proof.
  unfold startup at 1. unfold load_stats at 1. simpl.
  intros Hstart.
  assert (Hok : ledger_ok (stats w)).
  { destruct file as [text|].
    - destruct (load_lines _ []) as [st|e] eqn:E; [| done].
      injection Hstart as <-. simpl. by apply (loaded_ledger_ok text).
    - injection Hstart as <-. split; constructor. }
  destruct Hok as [Hnd Hsafe]. split; [done |]. split; [done |].
  unfold startup, load_stats, save_stats, modify. simpl.
  by rewrite load_saved.
Qed.

Lemma loaded_ledger_is_stable_witness :
  startup (Some hand_written)
  = Return (mkWorld ∅ [(bob, mkPlayerRecord 5 2); (alice, mkPlayerRecord 0 4)]
                    (Some hand_written))
  /\ startup (Some (of_string "bob;5;2" ++ [LF]
                    ++ of_string "alice;0;4" ++ [LF]))
     = Return (mkWorld ∅
                 [(bob, mkPlayerRecord 5 2); (alice, mkPlayerRecord 0 4)]
                 (Some (of_string "bob;5;2" ++ [LF]
                        ++ of_string "alice;0;4" ++ [LF]))).
Proof.
  assert (Hstart : startup (Some hand_written)
                   = Return (mkWorld ∅ [(bob, mkPlayerRecord 5 2);
                                        (alice, mkPlayerRecord 0 4)]
                                     (Some hand_written)))
    by reflexivity.
  split; [exact Hstart |].
  exact (proj2 (proj2 (loaded_ledger_is_stable _ _ Hstart))).
Defined.

(* ===================================================================== *)
(** ** Restarting the service *)
(* ===================================================================== *)

Lemma load_stats_file w w' :
  scores_txt w = scores_txt w' -> (load_stats w).1 = (load_stats w').1.
Proof. intros H. unfold load_stats. rewrite H. by destruct (scores_txt w'). Qed.

Lemma synced_same w w' :
  stats w' = stats w -> scores_txt w' = scores_txt w ->
  synced w -> synced w'.
Proof.
  intros Hst Hf (st0 & zeros & Hload & Hs & Hz). exists st0, zeros.
  rewrite Hst. split_and!; try done.
  by rewrite (load_stats_file w' w).
Qed.

Lemma ensure_service_ok p w :
  service_ok w -> safe_name p = true ->
  service_ok (ensure_player_stats p w).2.
Proof.
  intros ([Hnd Hsafe] & Hgames & Hsync) Hp.
  rewrite ensure_player_stats_spec. simpl.
  destruct (dict_get (stats w) p) eqn:E; [done |].
  apply dict_get_None in E. unfold service_ok, ledger_ok.
  split_and!; simpl.
  - rewrite <- (dict_set_fresh _ _ zero_record) by done.
    by apply dict_set_NoDup.
  - rewrite <- (dict_set_fresh _ _ zero_record) by done.
    by apply dict_set_safe.
  - done.
  - destruct Hsync as (st0 & zeros & Hload & Hs & Hz).
    exists st0, (zeros ++ [(p, zero_record)]). split_and!.
    + by rewrite (load_stats_file _ w).
    + simpl. by rewrite Hs, app_assoc.
    + apply Forall_app. split; [done | by repeat constructor].
Qed.

Lemma recorded_service_ok f p w :
  service_ok w -> safe_name p = true -> service_ok (recorded f p w).
Proof.
  intros ([Hnd Hsafe] & Hgames & Hsync) Hp.
  assert (Hok : ledger_ok (stats (recorded f p w))).
  { split; simpl; [by apply dict_set_NoDup | by apply dict_set_safe]. }
  split; [done |]. split; [done |].
  exists (stats (recorded f p w)), []. split_and!.
  - unfold load_stats. simpl. simpl in Hok. by rewrite load_saved.
  - by rewrite app_nil_r.
  - constructor.
Qed.

Lemma service_ok_set_games gs w :
  service_ok w ->
  (forall gid g, gs !! gid = Some g -> safe_name (player_name g) = true) ->
  service_ok (set_games gs w).
Proof.
  intros (Hok & _ & Hsync) Hgs. split; [done |]. split; [done |].
  by apply (synced_same w).
Qed.

Lemma handle_service_ok req w :
  service_ok w -> safe_request req -> service_ok (handle req w).2.
Proof.
  intros Hok Hreq.
  destruct req as [| name | s i d p | gid x | p]; simpl in *;
    unfold bind, ret; try done.
  - destruct (start_game_cases s i d p w)
      as [(nr & ma & _ & ->) | (_ & _ & _ & ->)]; [| done].
    simpl. apply service_ok_set_games; [by apply ensure_service_ok |].
    intros gid g. destruct (decide (i = gid)) as [-> | Hne].
    + rewrite lookup_insert_eq. by intros [= <-].
    + rewrite lookup_insert_ne by done. apply Hok.
  - destruct (check_guess_endpoint_cases gid x w)
      as [(_ & ->) | (g & r & g' & w' & Hg & Hway & ->)]; [done |].
    assert (Hp : safe_name (player_name g) = true)
      by (destruct Hok as (_ & Hgames & _); by apply (Hgames gid)).
    assert (Hw' : service_ok w')
      by (destruct Hway; try done; by apply recorded_service_ok).
    assert (Hfinal : service_ok (set_games (<[gid := g']> (games w)) w')).
    { apply service_ok_set_games; [done |]. intros gid0 g0.
      destruct (decide (gid = gid0)) as [-> | Hne].
      - rewrite lookup_insert_eq. intros [= <-].
        destruct (way_frame _ _ _ _ _ _ Hway) as (_ & _ & _ & _ & ->).
        done.
      - rewrite lookup_insert_ne by done.
        destruct Hok as (_ & Hgames & _). apply Hgames. }
    by destruct r.
  - by destruct (get_player_stats_cases p w) as [(_ & ->) | (r & _ & ->)].
Qed.

Lemma serve_service_ok reqs : forall w,
  service_ok w -> Forall safe_request reqs -> service_ok (serve reqs w).2.
Proof.
  induction reqs as [|req reqs IH]; intros w Hok Hall; simpl; [done |].
  apply Forall_cons in Hall as [Hreq Hreqs].
  apply IH; [by apply handle_service_ok | done].
Qed.

Lemma startup_service_ok file w : startup file = Return w -> service_ok w.
Proof.
  unfold startup, load_stats. simpl. intros Hstart.
  destruct file as [text|].
  - destruct (load_lines _ []) as [st|e] eqn:E; [| done].
    injection Hstart as <-. split_and!.
    + by apply (loaded_ledger_ok text).
    + intros gid g H. simpl in H. by rewrite lookup_empty in H.
    + exists st, []. unfold load_stats. simpl.
      split_and!; [done | by rewrite app_nil_r | constructor].
  - injection Hstart as <-. split_and!.
    + split; constructor.
    + intros gid g H. simpl in H. by rewrite lookup_empty in H.
    + exists [], []. by split_and!.
Qed.

Lemma zeros_get (zeros : dict PlayerRecord) k r :
  Forall (fun item : str * PlayerRecord => item.2 = zero_record) zeros ->
  dict_get zeros k = Some r -> r = zero_record.
Proof.
  induction zeros as [|[k' r'] zeros IH]; intros Hz; simpl; [done |].
  apply Forall_cons in Hz as [Hr Hz]. simpl in Hr.
  case_bool_decide; [by intros [= <-] | by apply IH].
Qed.

(** *** Names stay in ASCII and counters stay small *)

Lemma skip_spaces_length s : (length (skip_spaces s) <= length s)%nat.
Proof.
  induction s as [|c s IH]; simpl; [done |].
  destruct (ascii_space c); simpl; lia.
Qed.

Lemma int_digits_bound s : forall prev acc n,
  int_digits s prev acc = Some n ->
  (n < (acc + 1) * 10 ^ N.of_nat (length s))%N.
Proof.
  induction s as [|c s IH]; intros prev acc n; simpl int_digits.
  - destruct prev; [| done]. intros [= <-]. simpl. lia.
  - rewrite length_cons, Nat2N.inj_succ, N.pow_succ_r'.
    destruct (isdigit c) eqn:Hc.
    + intros H. apply IH in H. apply isdigit_range in Hc. unfold ZERO in H.
      eapply N.lt_le_trans; [exact H |].
      replace ((acc + 1) * (10 * 10 ^ N.of_nat (length s)))%N
        with ((10 * (acc + 1)) * 10 ^ N.of_nat (length s))%N by lia.
      apply N.mul_le_mono_r. lia.
    + destruct ((c =? UNDERSCORE)%N && prev); [| done].
      destruct s as [|c' s']; [done |].
      destruct (isdigit c'); [| done].
      intros H. apply IH in H.
      eapply N.lt_le_trans; [exact H |].
      replace ((acc + 1) * (10 * 10 ^ N.of_nat (length (c' :: s'))))%N
        with ((10 * (acc + 1)) * 10 ^ N.of_nat (length (c' :: s')))%N by lia.
      apply N.mul_le_mono_r. lia.
Qed.

(** An integer read from [s] has at most as many digits as [s] has
    characters. *)
Lemma int_bound s z :
  int s = Some z -> Z.abs z < 10 ^ Z.of_nat (length s).
Proof.
  unfold int.
  assert (Hlen : (length (rev (skip_spaces
                                 (rev (skip_spaces (List.map to_ascii s)))))
                  <= length s)%nat).
  { rewrite length_rev.
    etransitivity; [apply skip_spaces_length |]. rewrite length_rev.
    etransitivity; [apply skip_spaces_length |]. by rewrite length_map. }
  destruct (rev _) as [|c a]; [done |]. simpl in Hlen.
  assert (Hdigits : forall t n, (length t <= S (length a))%nat ->
            int_digits t false 0%N = Some n ->
            Z.of_N n < 10 ^ Z.of_nat (length s)).
  { intros t n Ht H. apply int_digits_bound in H.
    apply Z.lt_le_trans with (10 ^ Z.of_nat (length t)).
    - rewrite <- nat_N_Z, <- (N2Z.inj_pow 10). lia.
    - apply Z.pow_le_mono_r; lia. }
  destruct (c =? MINUS)%N; [| destruct (c =? PLUS)%N].
  - destruct (int_digits a false 0%N) as [n|] eqn:E; [| done].
    intros [= <-]. pose proof (Hdigits a n ltac:(lia) E). lia.
  - destruct (int_digits a false 0%N) as [n|] eqn:E; [| done].
    intros [= <-]. pose proof (Hdigits a n ltac:(lia) E). lia.
  - destruct (int_digits (c :: a) false 0%N) as [n|] eqn:E; [| done].
    intros [= <-]. pose proof (Hdigits (c :: a) n ltac:(simpl; lia) E). lia.
Qed.

Lemma lstrip_length s : (length (lstrip s) <= length s)%nat.
Proof.
  induction s as [|c s IH]; simpl; [done |].
  destruct (isspace c); simpl; lia.
Qed.

Lemma strip_length s : (length (strip s) <= length s)%nat.
Proof.
  unfold strip, rstrip. rewrite length_rev.
  etransitivity; [apply lstrip_length |]. rewrite length_rev.
  apply lstrip_length.
Qed.

Lemma split_lengths sep s :
  Forall (fun field : str => (length field <= length s)%nat) (split sep s).
Proof.
  induction s as [|c s IH]; simpl; [by repeat constructor |].
  destruct (c =? sep)%N.
  - constructor; [simpl; lia |].
    eapply Forall_impl; [exact IH |]. simpl. intros f Hf. lia.
  - destruct (split sep s) as [|field fields].
    + constructor; [simpl; lia | constructor].
    + apply Forall_cons in IH as [Hf Hfs]. constructor; [simpl; lia |].
      eapply Forall_impl; [exact Hfs |]. simpl. intros f Hf'. lia.
Qed.

Lemma universal_newlines_chars (P : N -> Prop) s :
  P LF -> Forall P s -> Forall P (universal_newlines s).
Proof.
  intros HLF.
  assert (H : Forall P s -> Forall P (universal_newlines s)
              /\ forall c, P c -> Forall P (universal_newlines (c :: s))).
  { induction s as [|c' s IH]; intros Hall.
    - split; [constructor |]. intros c Hc. simpl.
      destruct (c =? CR)%N; by repeat constructor.
    - apply Forall_cons in Hall as [Hc' Hs]. destruct (IH Hs) as [IH1 IH2].
      split; [by apply IH2 |]. intros c Hc.
      cbn [universal_newlines]. destruct (c =? CR)%N.
      + destruct (c' =? LF)%N; constructor; (done || by apply IH2).
      + constructor; [done | by apply IH2]. }
  intros Hall. by apply H.
Qed.

Lemma readlines_chars (P : N -> Prop) s :
  Forall P s -> Forall (Forall P) (readlines s).
Proof.
  induction s as [|c s IH]; intros Hall; [constructor |].
  apply Forall_cons in Hall as [Hc Hs]. specialize (IH Hs). simpl.
  destruct (c =? LF)%N; [by repeat constructor |].
  destruct (readlines s) as [|line lines]; [by repeat constructor |].
  apply Forall_cons in IH as [Hline Hlines]. by repeat constructor.
Qed.

Lemma dict_set_Forall {V} (P : str * V -> Prop) (d : dict V) k v :
  Forall P d -> P (k, v) -> Forall P (dict_set d k v).
Proof.
  intros Hd Hkv. induction d as [|[k' v'] d IH]; simpl.
  - by repeat constructor.
  - apply Forall_cons in Hd as [Hk' Hd]. case_bool_decide as E.
    + subst k'. by constructor.
    + constructor; [done | by apply IH].
Qed.

Lemma dict_get_Forall {V} (P : str * V -> Prop) (d : dict V) k v :
  Forall P d -> dict_get d k = Some v -> P (k, v).
Proof.
  intros Hd. induction d as [|[k' v'] d IH]; simpl; [done |].
  apply Forall_cons in Hd as [Hk' Hd]. case_bool_decide as E.
  - subst k'. by intros [= <-].
  - by apply IH.
Qed.

Lemma small_pos : 0 <= small.
Proof. unfold small. apply Z.pow_nonneg. lia. Qed.

Lemma load_lines_within lines : forall data st,
  Forall (fun line : str => ascii line /\ (length line <= 600)%nat) lines ->
  Forall (item_within small) data ->
  load_lines lines data = Return st ->
  Forall (item_within small) st.
Proof.
  induction lines as [|line lines IH]; intros data st Hlines Hdata.
  - by intros [= <-].
  - apply Forall_cons in Hlines as [[Hascii Hlen] Hlines]. cbn [load_lines].
    pose proof (strip_length line) as Hstrip.
    pose proof (strip_chars _ _ Hascii) as Hchars.
    destruct (strip line) as [|c s]; [by apply IH |].
    pose proof (split_lengths SEMICOLON (c :: s)) as Hfields.
    pose proof (split_chars _ SEMICOLON _ Hchars) as Hnames.
    destruct (split SEMICOLON (c :: s)) as [|f1 [|f2 [|f3 [|f4 fs]]]];
      try done.
    destruct (int f2) as [a|] eqn:E2; [| done].
    destruct (int f3) as [b|] eqn:E3; [| done].
    apply IH; [done |]. apply dict_set_Forall; [done |].
    apply Forall_cons in Hnames as [Hf1 _].
    apply Forall_cons in Hfields as [_ Hfields].
    apply Forall_cons in Hfields as [H2 Hfields].
    apply Forall_cons in Hfields as [H3 _].
    apply int_bound in E2. apply int_bound in E3.
    assert (Hpow : forall f : str, (length f <= length (c :: s))%nat ->
              10 ^ Z.of_nat (length f) <= small).
    { intros f Hf. unfold small. apply Z.pow_le_mono_r; lia. }
    specialize (Hpow f2 H2) as Hp2. specialize (Hpow f3 H3) as Hp3.
    unfold item_within. simpl. split; [done |]. lia.
Qed.

Lemma startup_within file w :
  startup file = Return w -> small_file file -> within_limits small w.
Proof.
  unfold startup, load_stats. simpl. intros Hstart Hsmall.
  assert (Hgames : forall gid (g : Game),
            (∅ : gmap str Game) !! gid = Some g -> ascii (player_name g))
    by (intros gid g H; by rewrite lookup_empty in H).
  destruct file as [text|].
  - destruct (load_lines _ []) as [st|e] eqn:E; [| done].
    injection Hstart as <-. split; [| done]. simpl.
    destruct Hsmall as [Hascii Hlen].
    eapply load_lines_within; [| constructor | exact E].
    apply Forall_and. split; [| done].
    apply readlines_chars. by apply universal_newlines_chars.
  - injection Hstart as <-. split; [constructor | done].
Qed.

Lemma item_within_mono B B' item :
  B <= B' -> item_within B item -> item_within B' item.
Proof. unfold item_within. intros HB (Ha & Hw & Hl). split; [done |]. lia. Qed.

Lemma within_limits_mono B B' w :
  B <= B' -> within_limits B w -> within_limits B' w.
Proof.
  intros HB [Hst Hg]. split; [| done].
  eapply Forall_impl; [exact Hst |]. intros item. by apply item_within_mono.
Qed.

Lemma recorded_within f p w B :
  0 <= B -> ascii p ->
  (forall r, - B <= wins r <= B /\ - B <= losses r <= B ->
             - (B + 1) <= wins (f r) <= B + 1
             /\ - (B + 1) <= losses (f r) <= B + 1) ->
  within_limits B w -> within_limits (B + 1) (recorded f p w).
Proof.
  intros HB Hp Hf [Hst Hg]. split; [| done]. simpl.
  apply dict_set_Forall.
  - eapply Forall_impl; [exact Hst |]. intros item.
    apply item_within_mono. lia.
  - split; [done |]. simpl. apply Hf.
    destruct (dict_get (stats w) p) as [r|] eqn:E; simpl; [| lia].
    by destruct (dict_get_Forall _ _ _ _ Hst E) as (_ & ? & ?).
Qed.

Lemma handle_within req w B :
  0 <= B -> within_limits B w -> plain_request req ->
  within_limits (B + 1) (handle req w).2.
Proof.
  intros HB Hw Hreq.
  assert (Hsame : within_limits (B + 1) w)
    by (apply (within_limits_mono B); [lia | done]).
  destruct req as [| name | s i d p | gid x | p]; simpl in *;
    unfold bind, ret; try done.
  - destruct (start_game_cases s i d p w)
      as [(nr & ma & _ & ->) | (_ & _ & _ & ->)]; [| done].
    destruct Hreq as [_ Hp]. destruct Hsame as [Hst Hg]. split; simpl.
    + run. destruct (dict_get (stats w) p); simpl; [done |].
      apply dict_set_Forall; [done |]. split; [done |]. simpl. lia.
    + intros gid g. destruct (decide (i = gid)) as [-> | Hne].
      * rewrite lookup_insert_eq. by intros [= <-].
      * rewrite lookup_insert_ne by done. apply Hg.
  - destruct (check_guess_endpoint_cases gid x w)
      as [(_ & ->) | (g & r & g' & w' & Hg & Hway & ->)]; [done |].
    assert (Hp : ascii (player_name g))
      by (destruct Hw as [_ Hgames]; by apply (Hgames gid)).
    assert (Hw' : within_limits (B + 1) w').
    { destruct Hway; try done; apply recorded_within; try done;
        intros r; simpl; lia. }
    assert (Hfinal : within_limits (B + 1)
                       (set_games (<[gid := g']> (games w)) w')).
    { destruct Hw' as [Hst' _]. split; [done |]. intros gid0 g0. simpl.
      destruct (decide (gid = gid0)) as [-> | Hne].
      - rewrite lookup_insert_eq. intros [= <-].
        by destruct (way_frame _ _ _ _ _ _ Hway) as (_ & _ & _ & _ & ->).
      - rewrite lookup_insert_ne by done.
        destruct Hw as [_ Hgames]. apply Hgames. }
    by destruct r.
  - by destruct (get_player_stats_cases p w) as [(_ & ->) | (r & _ & ->)].
Qed.

Lemma serve_within reqs : forall w B,
  0 <= B -> within_limits B w -> Forall plain_request reqs ->
  within_limits (B + Z.of_nat (length reqs)) (serve reqs w).2.
Proof.
  induction reqs as [|req reqs IH]; intros w B HB Hw Hall.
  - simpl. by rewrite Z.add_0_r.
  - apply Forall_cons in Hall as [Hreq Hreqs].
    rewrite length_cons, Nat2Z.inj_succ. cbn [serve snd].
    replace (B + Z.succ (Z.of_nat (length reqs)))
      with ((B + 1) + Z.of_nat (length reqs)) by lia.
    apply IH; [lia | by apply handle_within | done].
Qed.

Lemma plain_requests_safe reqs :
  Forall plain_request reqs -> Forall safe_request reqs.
Proof.
  intros Hall. eapply Forall_impl; [exact Hall |].
  intros [| | s i d p | |]; simpl; try done.
  by intros [? _].
Qed.

(** X14: a restart loses no counter, within the limits where the file
    can be written.  Start the service from a loadable file in ASCII with
    lines of at most 600 characters, and send it at most 10^600 requests,
    in which the player names of the start-game requests are safe (no ";",
    no line break, no whitespace in front) and in ASCII.  Then every name
    in memory is in ASCII and every counter is at most 2 * 10^600 in
    absolute value, so that no save meets an encoding error or the
    interpreter's limit on digits; the service starts again from the file
    as it is at that point; and in the ledger it loads every player has
    the wins and losses held in memory before the restart, a missing
    record counting as zeroed: the only records it lacks are zeroed ones,
    those of players with no result yet. *)
Theorem restart_keeps_counters (file : option str) (w0 : World)
    (reqs : list request) :
  startup file = Return w0 ->
  small_file file ->
  Forall plain_request reqs ->
  Z.of_nat (length reqs) <= 10 ^ 600 ->
  let w := (serve reqs w0).2 in
  Forall (fun item : str * PlayerRecord =>
            Forall (fun c => (c < 128)%N) item.1
            /\ Z.abs (wins item.2) <= 2 * 10 ^ 600
            /\ Z.abs (losses item.2) <= 2 * 10 ^ 600)
         (stats w)
  /\ exists w1,
       startup (scores_txt w) = Return w1
       /\ (forall name,
             wins_of name w1 = wins_of name w
             /\ losses_of name w1 = losses_of name w)
       /\ (forall name r, dict_get (stats w1) name = Some r ->
             dict_get (stats w) name = Some r)
       /\ (forall name r, dict_get (stats w) name = Some r ->
             dict_get (stats w1) name = Some r \/ r = mkPlayerRecord 0 0).
Proof.
  intros Hstart Hsmall Hplain Hcount w. split.
  - pose proof (startup_within file w0 Hstart Hsmall) as Hw0.
    destruct (serve_within reqs w0 small small_pos Hw0 Hplain) as [Hst _].
    fold w in Hst. fold small in Hcount |- *.
    eapply Forall_impl; [exact Hst |].
    intros item (Ha & Hwins & Hlosses). split; [done |]. lia.
  - assert (Hok : service_ok w).
    { apply serve_service_ok; [by apply (startup_service_ok file) |].
      by apply plain_requests_safe. }
    destruct Hok as (_ & _ & (st0 & zeros & Hload & Hs & Hz)).
    exists (mkWorld ∅ st0 (scores_txt w)).
    assert (Hget : forall name,
              dict_get (stats w) name
              = match dict_get st0 name with
                | Some r => Some r
                | None => dict_get zeros name
                end)
      by (intros name; by rewrite Hs, dict_get_app).
    split_and!.
    + unfold startup.
      rewrite (load_stats_file (mkWorld ∅ [] (scores_txt w)) w) by done.
      by rewrite Hload.
    + intros name. unfold wins_of, losses_of. simpl. rewrite Hget.
      destruct (dict_get st0 name) as [r|]; [done |].
      destruct (dict_get zeros name) as [r|] eqn:E; [| done].
      by rewrite (zeros_get zeros name r Hz E).
    + intros name r Hr. simpl in Hr. by rewrite Hget, Hr.
    + intros name r Hr. simpl. rewrite Hget in Hr.
      destruct (dict_get st0 name) as [r'|]; [by left |].
      right. by apply (zeros_get zeros name r Hz).
Qed.

Lemma restart_keeps_counters_witness :
  startup (Some hand_written)
  = Return (mkWorld ∅ [(bob, mkPlayerRecord 5 2); (alice, mkPlayerRecord 0 4)]
                    (Some hand_written))
  /\ small_file (Some hand_written)
  /\ Forall plain_request
       [PostStartGame 7 game1 1 carol; PostCheckGuess game1 7;
        PostStartGame 3 game2 2 alice]
  /\ 3 <= 10 ^ 600
  /\ exists w1,
       startup (scores_txt
                  (serve [PostStartGame 7 game1 1 carol;
                          PostCheckGuess game1 7;
                          PostStartGame 3 game2 2 alice]
                     (mkWorld ∅ [(bob, mkPlayerRecord 5 2);
                                 (alice, mkPlayerRecord 0 4)]
                              (Some hand_written))).2)
       = Return w1
       /\ wins_of carol w1 = 1.
Proof.
  assert (Hstart : startup (Some hand_written)
                   = Return (mkWorld ∅ [(bob, mkPlayerRecord 5 2);
                                        (alice, mkPlayerRecord 0 4)]
                                     (Some hand_written)))
    by reflexivity.
  assert (Hsmall : small_file (Some hand_written)).
  { split; [by repeat constructor |].
    repeat constructor; simpl; lia. }
  assert (Hplain : Forall plain_request
                     [PostStartGame 7 game1 1 carol; PostCheckGuess game1 7;
                      PostStartGame 3 game2 2 alice]).
  { repeat constructor; by repeat constructor. }
  assert (Hcount : 3 <= 10 ^ 600)
    by (apply Z.leb_le; vm_compute; reflexivity).
  split; [exact Hstart |]. split; [exact Hsmall |].
  split; [exact Hplain |]. split; [exact Hcount |].
  destruct (restart_keeps_counters _ _ _ Hstart Hsmall Hplain Hcount)
    as (_ & w1 & Hrestart & Hcounters & _).
  exists w1. split; [exact Hrestart |].
  rewrite (proj1 (Hcounters carol)). reflexivity.
Defined.

(* ===================================================================== *)
(** ** The response agrees with the stored game *)
(* ===================================================================== *)

(** X15: on a game whose attempts are within its budget, the attempts_left
    of every guess response is max_attempts - attempts_used of the game as
    it is stored after the call, also in the [lose] response, where the
    code returns the constant 0. *)
Theorem response_matches_game (gid : str) (x : Z) (w : World) (g : Game)
    (resp : GuessResponse) :
  games w !! gid = Some g ->
  game_ok g ->
  (check_guess_endpoint gid x w).1 = Return resp ->
  exists g',
    games (check_guess_endpoint gid x w).2 !! gid = Some g'
    /\ attempts_left resp = max_attempts g' - attempts_used g'
    /\ 0 <= attempts_left resp.
Proof.
  intros Hg [Hused Hactive] Hresp.
  rewrite (check_guess_endpoint_found gid x w g Hg) in *.
  pose proof (apply_guess_way x g w) as Hway. simpl in Hway.
  destruct (apply_guess_to_game x (g, w)) as [r [g' w']]. simpl in *.
  subst r. exists g'. rewrite lookup_insert_eq. split; [done |].
  inversion Hway as [Hover | | Hover | Hover | res Hover]; subst; simpl;
    try specialize (Hactive Hover); lia.
Qed.

Lemma response_matches_game_witness :
  games busy_world !! game2 = Some alice_game
  /\ game_ok alice_game
  /\ (check_guess_endpoint game2 20 busy_world).1
     = Return (mkGuessResponse lose 0 (Some 13))
  /\ exists g',
       games (check_guess_endpoint game2 20 busy_world).2 !! game2 = Some g'
       /\ 0 = max_attempts g' - attempts_used g'.
Proof.
  assert (Hg : games busy_world !! game2 = Some alice_game).
  { unfold busy_world. simpl. rewrite lookup_insert_ne by done.
    apply lookup_singleton_eq. }
  assert (Hok : game_ok alice_game) by (unfold game_ok; simpl; lia).
  assert (Hresp : (check_guess_endpoint game2 20 busy_world).1
                  = Return (mkGuessResponse lose 0 (Some 13))).
  { by rewrite (check_guess_endpoint_found game2 20 busy_world _ Hg). }
  split; [done |]. split; [done |]. split; [done |].
  destruct (response_matches_game game2 20 busy_world alice_game _
              Hg Hok Hresp) as (g' & Hg' & Hleft & _).
  exists g'. by split.
Defined.

(* ===================================================================== *)
(** ** A name with a ";" *)
(* ===================================================================== *)

Lemma count_occ_lstrip s c :
  isspace c = false ->
  count_occ N.eq_dec (lstrip s) c = count_occ N.eq_dec s c.
Proof.
  intros Hc. induction s as [|c' s IH]; [done |].
  cbn [lstrip]. destruct (isspace c') eqn:E; [| done].
  rewrite IH. cbn [count_occ]. destruct (N.eq_dec c' c); [congruence | done].
Qed.

Lemma count_occ_strip s c :
  isspace c = false ->
  count_occ N.eq_dec (strip s) c = count_occ N.eq_dec s c.
Proof.
  intros Hc. unfold strip, rstrip.
  by rewrite count_occ_rev, count_occ_lstrip, count_occ_rev,
    count_occ_lstrip.
Qed.

Lemma count_occ_record item :
  (2 + count_occ N.eq_dec item.1 SEMICOLON
   <= count_occ N.eq_dec (format_record item) SEMICOLON)%nat.
Proof.
  unfold format_record. rewrite !count_occ_app. simpl. lia.
Qed.

Lemma readlines_records st :
  Forall (Forall (fun c => c <> LF)) (dict_keys st) ->
  readlines (save_text st) = List.map format_record st.
Proof.
  induction st as [|item st IH]; intros Hnames; [done |].
  apply Forall_cons in Hnames as [Hitem Hst].
  unfold save_text. cbn [List.map concat]. fold (save_text st).
  rewrite format_record_body, <- app_assoc. simpl.
  rewrite readlines_line; [by rewrite IH |].
  apply record_body_chars; [done | done |].
  intros c Hc. by apply num_char_plain in Hc as (_ & ? & _).
Qed.

Lemma save_text_chars (P : N -> Prop) st :
  Forall (Forall P) (dict_keys st) ->
  P SEMICOLON -> P LF -> (forall c, num_char c -> P c) ->
  Forall P (save_text st).
Proof.
  intros Hnames Hsep Hlf Hnum.
  induction st as [|item st IH]; [constructor |].
  apply Forall_cons in Hnames as [Hitem Hst].
  unfold save_text. cbn [List.map concat]. fold (save_text st).
  rewrite format_record_body. apply Forall_app. split; [| by apply IH].
  apply Forall_app. split; [| by repeat constructor].
  by apply record_body_chars.
Qed.

(** X16: one name with a ";" makes the saved file unreadable for
    everybody.  If the names of the ledger hold no line break and one of
    them holds a ";", then loading the file [save_stats] has just written
    raises [ValueError], so the service cannot start again from it. *)
Theorem semicolon_name_breaks_file (w : World) (name : str) :
  Forall (Forall (fun c => c <> LF /\ c <> CR)) (dict_keys (stats w)) ->
  name ∈ dict_keys (stats w) ->
  SEMICOLON ∈ name ->
  (load_stats (save_stats w).2).1 = Raise (ValueError [])
  /\ startup (scores_txt (save_stats w).2) = Raise (ValueError []).
Proof.
  intros Hnames Hin Hsemi.
  assert (Hload : load_lines
                    (readlines (universal_newlines (save_text (stats w)))) []
                  = Raise (ValueError [])).
  { rewrite universal_newlines_id.
    2:{ apply save_text_chars; try done.
        - eapply Forall_impl; [exact Hnames |]. intros n Hn.
          eapply Forall_impl; [exact Hn |]. by intros c [_ ?].
        - intros c Hc. by apply num_char_plain in Hc as (_ & _ & ?). }
    rewrite readlines_records.
    2:{ eapply Forall_impl; [exact Hnames |]. intros n Hn.
        eapply Forall_impl; [exact Hn |]. by intros c [? _]. }
    unfold dict_keys in Hin. apply list_elem_of_fmap in Hin
      as (item & -> & Hitem).
    apply list_elem_of_split in Hitem as (d1 & d2 & ->).
    rewrite List.map_app. cbn [List.map].
    assert (Hcount : (3 <= count_occ N.eq_dec (strip (format_record item))
                               SEMICOLON)%nat).
    { rewrite count_occ_strip by done.
      pose proof (count_occ_record item) as Hrec.
      apply list_elem_of_In, (count_occ_In N.eq_dec) in Hsemi. lia. }
    rewrite load_lines_app.
    destruct (load_lines (List.map format_record d1) []) as [d|e] eqn:E;
      [| by rewrite (load_lines_raise _ _ e E)].
    apply load_malformed.
    - intros E'. rewrite E' in Hcount. simpl in Hcount. lia.
    - left. lia. }
  split.
  - unfold load_stats, save_stats, modify. simpl. by rewrite Hload.
  - unfold startup, load_stats, save_stats, modify. simpl. by rewrite Hload.
Qed.

Lemma semicolon_name_breaks_file_witness :
  Forall (Forall (fun c => c <> LF /\ c <> CR))
         (dict_keys [(bob, mkPlayerRecord 2 1);
                     (of_string "a;b", mkPlayerRecord 0 1)])
  /\ of_string "a;b" ∈ dict_keys [(bob, mkPlayerRecord 2 1);
                                  (of_string "a;b", mkPlayerRecord 0 1)]
  /\ SEMICOLON ∈ of_string "a;b"
  /\ startup (Some (of_string "bob;2;1" ++ [LF] ++ of_string "a;b;0;1"
                    ++ [LF]))
     = Raise (ValueError []).
Proof.
  assert (Hnames : Forall (Forall (fun c => c <> LF /\ c <> CR))
                     (dict_keys [(bob, mkPlayerRecord 2 1);
                                 (of_string "a;b", mkPlayerRecord 0 1)]))
    by (by repeat constructor).
  assert (Hin : of_string "a;b"
                ∈ dict_keys [(bob, mkPlayerRecord 2 1);
                             (of_string "a;b", mkPlayerRecord 0 1)])
    by (simpl; apply list_elem_of_further, list_elem_of_here).
  assert (Hsemi : SEMICOLON ∈ of_string "a;b")
    by (apply list_elem_of_further, list_elem_of_here).
  split; [done |]. split; [done |]. split; [done |].
  exact (proj2 (semicolon_name_breaks_file
                  (mkWorld ∅ [(bob, mkPlayerRecord 2 1);
                              (of_string "a;b", mkPlayerRecord 0 1)] None)
                  (of_string "a;b") Hnames Hin Hsemi)).
Defined.
